(** * magenta/interfaces/midi/midi_hub.py: a shallow embedding

    The module wires a MIDI input to recorders (captors), to an optional
    passthrough and to a player.  Every class is embedded as a record of
    the attributes its constructor assigns, every method as a function on
    that record.  [time.time()] is an input of the method that reads it.

    Times are Python floats; only their order and the test against zero
    matter below, so a time is a rational number (finite floats, compared
    exactly).  Python sets of pitches are [gset Z]; deques and queues are
    lists with the front at the head; the output port is the list of the
    messages sent so far, oldest first. *)

From Stdlib Require Import ZArith QArith List Bool Lia.
From stdpp Require Import base gmap sets list.
Import ListNotations.

(** ** Python values shared by the classes *)

Inductive exn : Type :=
  | MidiHubException
  | AttributeError
  | AssertionError
  | IndexError
  | KeyError
  | RuntimeError
  | ValueError.

(** A call either returns a value or raises. *)
Inductive result (A : Type) : Type :=
  | Ok (a : A)
  | Raise (e : exn).
Arguments Ok {A} a.
Arguments Raise {A} e.

(** Statements in sequence: an exception skips what follows.  This gives
    the notation [x ← r; k]. *)
#[global] Instance result_ret : MRet result := fun A a => Ok a.
#[global] Instance result_bind : MBind result := fun A B k r =>
  match r with
  | Ok a => k a
  | Raise e => Raise e
  end.

(** An instance attribute is either bound to a value or was never
    assigned; reading an unassigned attribute raises [AttributeError]. *)
Inductive attr (A : Type) : Type :=
  | Missing
  | Bound (a : A).
Arguments Missing {A}.
Arguments Bound {A} a.

Definition getattr {A : Type} (a : attr A) : result A :=
  match a with
  | Bound v => Ok v
  | Missing => Raise AttributeError
  end.

(** [x < y] on times, and Python's truth value of a float. *)
Definition Qlt_bool (x y : Q) : bool := negb (Qle_bool y x).
Definition truthy (t : Q) : bool := negb (Qeq_bool t 0).

(** ** mido.Message

    [time] defaults to 0 in mido, which is what "unset" means. *)
Inductive msg_type : Type :=
  | note_on
  | note_off
  | program_change
  | other_type.

Definition msg_type_eqb (a b : msg_type) : bool :=
  match a, b with
  | note_on, note_on | note_off, note_off
  | program_change, program_change | other_type, other_type => true
  | _, _ => false
  end.

Record Message : Type := mkMessage {
  type : msg_type;
  note : Z;
  velocity : Z;
  channel : Z;
  time : Q
}.

(** [mido.Message(type, note=.., velocity=.., time=..)] with mido's
    defaults for what is left out: velocity 64, channel 0, time 0. *)
Definition default_velocity : Z := 64.
Definition new_note_on (n v : Z) (t : Q) : Message := mkMessage note_on n v 0 t.
Definition new_note_off (n : Z) (t : Q) : Message :=
  mkMessage note_off n default_velocity 0 t.

(** Modelled from the spec: mido is not part of the source tree.  The
    spec gives a message's pitch and velocity the range 0-127, and mido's
    constructor raises [ValueError] for a data byte outside it.  These are
    the constructor calls on values that come from a NoteSequence, whose
    pitch and velocity are plain integers. *)
Definition data_byte (z : Z) : bool := Z.leb 0 z && Z.leb z 127.

Definition Message_note_on (n v : Z) (t : Q) : result Message :=
  if data_byte n && data_byte v then Ok (new_note_on n v t) else Raise ValueError.

Definition Message_note_off (n : Z) (t : Q) : result Message :=
  if data_byte n then Ok (new_note_off n t) else Raise ValueError.

Definition set_time (m : Message) (t : Q) : Message :=
  mkMessage (type m) (note m) (velocity m) (channel m) t.

(** [set.remove(x)] on a set of pitches.  The argument is any object; a
    [mido.Message] is never a member of a set of ints. *)
Inductive pyobj : Type :=
  | PyInt (z : Z)
  | PyMessage (m : Message).

Definition set_remove (x : pyobj) (s : gset Z) : result (gset Z) :=
  match x with
  | PyInt z => if bool_decide (z ∈ s) then Ok (s ∖ {[z]}) else Raise KeyError
  | PyMessage _ => Raise KeyError
  end.

(** [set.pop()]: the element taken is the first of [elements]. *)
Definition set_pop (s : gset Z) : result (Z * gset Z) :=
  match elements s with
  | [] => Raise KeyError
  | x :: _ => Ok (x, s ∖ {[x]})
  end.

(** ** music_pb2.NoteSequence

    Unset float fields of a proto read as 0, so an open note is one whose
    [end_time] is 0. *)
Record Note : Type := mkNote {
  pitch : Z;
  note_velocity : Z;
  start_time : Q;
  end_time : Q
}.

Record NoteSequence : Type := mkNoteSequence {
  qpm : Q;
  tempos : list Q;
  total_time : Q;
  notes : list Note
}.

(** [sorted(l, key=lambda x: x.time)]: stable, ascending. *)
Fixpoint insert_by_time (m : Message) (l : list Message) : list Message :=
  match l with
  | [] => [m]
  | x :: rest =>
      if Qle_bool (time x) (time m) then x :: insert_by_time m rest
      else m :: x :: rest
  end.

Definition sorted_by_time (l : list Message) : list Message :=
  fold_left (fun acc m => insert_by_time m acc) l [].

(** How many messages of a list are a note-off for pitch [p] at time [t]. *)
Definition is_note_off_at (p : Z) (t : Q) (m : Message) : bool :=
  msg_type_eqb (type m) note_off && Z.eqb (note m) p && Qeq_bool (time m) t.

Definition count_note_off_at (p : Z) (t : Q) (l : list Message) : nat :=
  length (filter (fun m => is_note_off_at p t m = true) l).

(** ** class MidiPlayer *)
Module MidiPlayer.

Record t : Type := mk {
  _outport : list Message;
  _open_notes : gset Z;
  _message_queue : list Message;
  _allow_updates : bool;
  (* read by [update_sequence]; no method of the class assigns it *)
  _playhead : attr Q
}.

Definition with_queue (self : t) (q : list Message) : t :=
  mk (_outport self) (_open_notes self) q (_allow_updates self) (_playhead self).

Definition with_allow_updates (self : t) (b : bool) : t :=
  mk (_outport self) (_open_notes self) (_message_queue self) b (_playhead self).

(** First loop of [update_sequence]: [for note in sequence.notes]. *)
Fixpoint scan_notes (self : t) (playhead : Q) (ns : list Note)
    (new_message_list : list Message) (notes_to_close : gset Z)
    : result (list Message * gset Z) :=
  match ns with
  | [] => Ok (new_message_list, notes_to_close)
  | n :: rest =>
      l1 ← (if Qle_bool playhead (start_time n)
            then on ← Message_note_on (pitch n) (note_velocity n) (start_time n);
                 Ok (new_message_list ++ [on])
            else Ok new_message_list);
      if Qle_bool playhead (end_time n) then
        off ← Message_note_off (pitch n) (end_time n);
        let l2 := l1 ++ [off] in
        ph ← getattr (_playhead self);
        if Qlt_bool (start_time n) ph
           && negb (bool_decide (pitch n ∈ _open_notes self))
        then scan_notes self playhead rest l2 ({[pitch n]} ∪ notes_to_close)
        else scan_notes self playhead rest l2 notes_to_close
      else scan_notes self playhead rest l1 notes_to_close
  end.

(** Second loop: [for msg in self._message_queue]. *)
Fixpoint scan_queue (old : list Message)
    (new_message_list : list Message) (notes_to_close : gset Z)
    : result (list Message) :=
  match old with
  | [] => Ok new_message_list
  | msg :: rest =>
      if bool_decide (notes_to_close = ∅) then Ok new_message_list
      else if bool_decide (note msg ∈ notes_to_close) then
        if msg_type_eqb (type msg) note_off
        then scan_queue rest (new_message_list ++ [msg])
                        (notes_to_close ∖ {[note msg]})
        else Raise AssertionError
      else scan_queue rest new_message_list notes_to_close
  end.

Definition update_sequence (self : t) (sequence : NoteSequence) (now : Q)
    : result t :=
  if negb (_allow_updates self) then Raise MidiHubException
  else
    let playhead := now in
    r ← scan_notes self playhead (notes sequence) [] ∅;
    l ← scan_queue (_message_queue self) (fst r) (snd r);
    Ok (with_queue self (sorted_by_time l)).

(** [__init__(outport, sequence, allow_updates)]; the port starts with
    nothing sent. *)
Definition init (sequence : NoteSequence) (allow_updates : bool) (now : Q)
    : result t :=
  if negb (Nat.eqb (length (tempos sequence)) 1) then Raise MidiHubException
  else
    self ← update_sequence (mk [] ∅ [] true Missing) sequence now;
    Ok (with_allow_updates self allow_updates).

(** *** The playback thread

    [run] is followed one loop test at a time.  [Startup] is the first
    [while], [Loop] the test of the inner [while self._message_queue],
    [Waiting] a call of [self._update_cv.wait], during which the lock is
    free.  A thread ends by returning or by an exception. *)
Inductive pc : Type :=
  | Startup
  | Loop
  | Waiting (timeout : option Q).

Inductive thread : Type :=
  | Running (at_ : pc) (self : t)
  | Returned (self : t)
  | Crashed (e : exn) (self : t).

Definition step (now : Q) (th : thread) : thread :=
  match th with
  | Running Startup self =>
      match _message_queue self with
      | [] => Crashed IndexError self
      | m :: rest =>
          if Qlt_bool (time m) now
          then Running Startup (with_queue self rest)
          else Running Loop self
      end
  | Running Loop self =>
      match _message_queue self with
      | next_msg :: rest =>
          if Qlt_bool now (time next_msg)
          then Running (Waiting (Some (time next_msg - now)%Q)) self
          else
            let popped := with_queue self rest in
            match type next_msg with
            | note_on =>
                Running Loop
                  (mk (_outport self ++ [next_msg])
                      ({[note next_msg]} ∪ _open_notes self)
                      rest (_allow_updates self) (_playhead self))
            | note_off =>
                match set_remove (PyInt (note next_msg)) (_open_notes self) with
                | Ok s =>
                    Running Loop
                      (mk (_outport self ++ [next_msg]) s
                          rest (_allow_updates self) (_playhead self))
                | Raise e => Crashed e popped
                end
            | _ =>
                Running Loop
                  (mk (_outport self ++ [next_msg]) (_open_notes self)
                      rest (_allow_updates self) (_playhead self))
            end
      | [] =>
          (* the [while True] body ends with
             [if self._allow_updates: self._update_cv.wait()] and
             nothing else *)
          if _allow_updates self then Running (Waiting None) self
          else Running Loop self
      end
  | Running (Waiting _) self => Running Loop self
  | Returned self => Returned self
  | Crashed e self => Crashed e self
  end.

(** The thread after one loop test per clock reading. *)
Definition run_steps (clock : list Q) (th : thread) : thread :=
  fold_left (fun th now => step now th) clock th.

(** [start()] followed by [run()]. *)
Definition run (clock : list Q) (self : t) : thread :=
  run_steps clock (Running Startup self).

(** [for x in s] over a Python set visits every element once, in an
    order of the set's own. *)
Definition iterates (s : gset Z) (order : list Z) : Prop :=
  NoDup order /\ forall n, n ∈ order <-> n ∈ s.

(** The part of [stop()] under the lock; [join()] then waits for the
    thread to end.  [visits] is the iteration over [self._open_notes]:
    the pitches in the order they are visited, each with the reading of
    [time.time()] made for it.  The pitches of [_open_notes] are pitches
    of messages, so the note-offs are within mido's range. *)
Definition stop_locked (self : t) (visits : list (Z * Q)) : t :=
  mk (_outport self) (_open_notes self)
     (map (fun v => new_note_off (fst v) (snd v)) visits)
     false (_playhead self).

Definition exited (th : thread) : bool :=
  match th with
  | Running _ _ => false
  | Returned _ | Crashed _ _ => true
  end.

End MidiPlayer.

(** ** class MidiCaptor and its two subclasses *)
Module MidiCaptor.

Inductive thread_state : Type :=
  | NotStarted
  | Alive
  | Finished
  | Died (e : exn).

(** What the subclass adds: [MonophonicMidiCaptor._open_note] or
    [PolyphonicMidiCaptor._open_notes].  An open note is an element of
    [_captured_sequence.notes]; it is kept as its index there, so that
    closing it changes the sequence. *)
Inductive open_state : Type :=
  | Monophonic (_open_note : option nat)
  | Polyphonic (_open_notes : gmap Z nat).

Record t : Type := mk {
  _receive_queue : list (option Message);   (* [None] is [_WAKE_MESSAGE] *)
  _captured_sequence : NoteSequence;
  _start_time : Q;
  _stop_time : option Q;
  _stop_signal : option Message;
  (* read by [run]; the constructor assigns [_stop_signal], nothing
     assigns [_stop_message] *)
  _stop_message : attr (option Message);
  open : open_state;
  thread : thread_state
}.

Definition with_queue (self : t) (q : list (option Message)) : t :=
  mk q (_captured_sequence self) (_start_time self) (_stop_time self)
     (_stop_signal self) (_stop_message self) (open self) (thread self).

Definition with_sequence (self : t) (s : NoteSequence) : t :=
  mk (_receive_queue self) s (_start_time self) (_stop_time self)
     (_stop_signal self) (_stop_message self) (open self) (thread self).

Definition with_stop_time (self : t) (st : option Q) : t :=
  mk (_receive_queue self) (_captured_sequence self) (_start_time self) st
     (_stop_signal self) (_stop_message self) (open self) (thread self).

Definition with_open (self : t) (o : open_state) : t :=
  mk (_receive_queue self) (_captured_sequence self) (_start_time self)
     (_stop_time self) (_stop_signal self) (_stop_message self) o (thread self).

Definition with_thread (self : t) (th : thread_state) : t :=
  mk (_receive_queue self) (_captured_sequence self) (_start_time self)
     (_stop_time self) (_stop_signal self) (_stop_message self) (open self) th.

Definition with_notes (self : t) (ns : list Note) : t :=
  let s := _captured_sequence self in
  with_sequence self (mkNoteSequence (qpm s) (tempos s) (total_time s) ns).

(** [__init__(qpm, start_time, stop_time, stop_signal)] of the class
    chosen by [o]. *)
Definition init (o : open_state) (qpm start_time : Q)
    (stop_time : option Q) (stop_signal : option Message) : t :=
  mk [] (mkNoteSequence qpm [] 0 []) start_time stop_time stop_signal
     Missing o NotStarted.

Definition start (self : t) : t := with_thread self Alive.

(** [self.is_alive()] *)
Definition is_alive (self : t) : bool :=
  match thread self with
  | Alive => true
  | _ => false
  end.

(** [self.is_alive] without the call is the bound method, a true
    object whatever the thread does. *)
Definition is_alive_method (self : t) : bool := true.

(** [self._receive_queue.put_nowait(item)] *)
Definition put_nowait (self : t) (item : option Message) : t :=
  with_queue self (_receive_queue self ++ [item]).

Definition receive (self : t) (msg : Message) : result t :=
  if negb (truthy (time msg)) then Raise MidiHubException
  else Ok (put_nowait self (Some msg)).

(** The loop of [captured_sequence] over a copy of the notes. *)
Fixpoint close_notes (end_time_arg : Q) (ns : list Note) : list Note :=
  match ns with
  | [] => []
  | n :: rest =>
      if Qlt_bool (end_time n) (start_time n) then []
      else
        (if negb (truthy (end_time n)) || Qlt_bool end_time_arg (end_time n)
         then mkNote (pitch n) (note_velocity n) (start_time n) end_time_arg
         else n) :: close_notes end_time_arg rest
  end.

Definition captured_sequence (self : t) (end_time_arg : option Q)
    : result NoteSequence :=
  let current := _captured_sequence self in
  if is_alive self then
    match end_time_arg with
    | None => Raise MidiHubException
    | Some e =>
        Ok (mkNoteSequence (qpm current) (tempos current) e
              (close_notes e (notes current)))
    end
  else
    match end_time_arg with
    | Some _ => Raise MidiHubException
    | None => Ok current
    end.

(** *** [_capture_message] *)

Definition ends_note (msg : Message) : bool :=
  msg_type_eqb (type msg) note_off
  || (msg_type_eqb (type msg) note_on && Z.eqb (velocity msg) 0).

Definition set_end_time (t : Q) (n : Note) : Note :=
  mkNote (pitch n) (note_velocity n) (start_time n) t.

(** [new_note = self._captured_sequence.notes.add()] and the three
    assignments that follow; returns the new note's index too. *)
Definition add_note (self : t) (msg : Message) : t * nat :=
  let ns := notes (_captured_sequence self) in
  (with_notes self (ns ++ [mkNote (note msg) (velocity msg) (time msg) 0]),
   length ns).

Definition capture_monophonic (self : t) (o : option nat) (msg : Message) : t :=
  let ns := notes (_captured_sequence self) in
  if ends_note msg then
    match o with
    | None => self
    | Some i =>
        match pitch <$> ns !! i with
        | Some p =>
            if negb (Z.eqb (note msg) p) then self
            else with_open (with_notes self (alter (set_end_time (time msg)) i ns))
                           (Monophonic None)
        | None => self
        end
    end
  else if msg_type_eqb (type msg) note_on then
    let opened self1 :=
      let '(self2, i) := add_note self1 msg in
      with_open self2 (Monophonic (Some i)) in
    match o with
    | Some i =>
        if bool_decide (pitch <$> ns !! i = Some (note msg)) then self
        else opened (with_notes self (alter (set_end_time (time msg)) i ns))
    | None => opened self
    end
  else self.

Definition capture_polyphonic (self : t) (o : gmap Z nat) (msg : Message) : t :=
  let ns := notes (_captured_sequence self) in
  if ends_note msg then
    match o !! note msg with
    | None => self
    | Some i =>
        with_open (with_notes self (alter (set_end_time (time msg)) i ns))
                  (Polyphonic (delete (note msg) o))
    end
  else if msg_type_eqb (type msg) note_on then
    match o !! note msg with
    | Some _ => self
    | None =>
        let '(self2, i) := add_note self msg in
        with_open self2 (Polyphonic (<[note msg := i]> o))
    end
  else self.

Definition _capture_message (self : t) (msg : Message) : t :=
  match open self with
  | Monophonic o => capture_monophonic self o msg
  | Polyphonic o => capture_polyphonic self o msg
  end.

(** Modelled from the spec: mido's [==] on messages is not part of the
    source tree; the spec says a stop signal is matched by kind, pitch,
    velocity and channel, the time being ignored.  [None] equals no
    message. *)
Definition matches_signal (msg : Message) (signal : option Message) : bool :=
  match signal with
  | None => false
  | Some s =>
      msg_type_eqb (type msg) (type s) && Z.eqb (note msg) (note s)
      && Z.eqb (velocity msg) (velocity s) && Z.eqb (channel msg) (channel s)
  end.

(** *** The capture thread *)

(** What follows the loop of [run]. *)
Definition finish (self : t) (end_time_arg : Q) : t :=
  match captured_sequence self (Some end_time_arg) with
  | Ok s => with_thread (with_sequence self s) Finished
  | Raise e => with_thread self (Died e)
  end.

(** [msg = self._receive_queue.get(...)] and the rest of the turn.
    With nothing in the queue the turn leaves everything as it is:
    [get] is still blocked, or timed out and the loop continued. *)
Definition dequeue (self : t) : t :=
  match _receive_queue self with
  | [] => self
  | None :: q => with_queue self q
  | Some msg :: q =>
      let self1 := with_queue self q in
      if Qle_bool (time msg) (_start_time self) then self1
      else
        match getattr (_stop_message self) with
        | Raise e => with_thread self1 (Died e)
        | Ok signal =>
            if matches_signal msg signal
            then finish self1 (default (time msg) (_stop_time self1))
            else _capture_message self1 msg
        end
  end.

(** One turn of [while True] in [run], the clock reading [now]. *)
Definition step (now : Q) (self : t) : t :=
  if negb (is_alive self) then self
  else
    match _stop_time self with
    | Some st =>
        if Qle_bool (st - now) 0 then finish self st else dequeue self
    | None => dequeue self
    end.

(** What happens around a captor: the hub hands it a message, or its
    thread takes a turn. *)
Inductive event : Type :=
  | Deliver (msg : Message)
  | Tick (now : Q).

Definition react (self : t) (ev : event) : t :=
  match ev with
  | Deliver msg =>
      if is_alive self then
        match receive self msg with
        | Ok self' => self'
        | Raise _ => self
        end
      else self
  | Tick now => step now self
  end.

Definition simulate (events : list event) (self : t) : t :=
  fold_left react events self.

(** [join()]: [None] while the thread is still running. *)
Definition join (self : t) : result (option t) :=
  match thread self with
  | NotStarted => Raise RuntimeError
  | Alive => Ok None
  | Finished | Died _ => Ok (Some self)
  end.

(** [stop(stop_time)]: it raises, or reaches [join()], which returns at
    once or waits for the run loop. *)
Inductive stop_outcome : Type :=
  | StopRaised (e : exn) (self : t)
  | StopWaiting (self : t)
  | StopReturned (self : t).

Definition stop (self : t) (stop_time : option Q) (now : Q) : stop_outcome :=
  if negb (is_alive_method self) then StopRaised MidiHubException self
  else
    let self1 := with_stop_time self (Some (default now stop_time)) in
    let self2 := put_nowait self1 None in
    match join self2 with
    | Raise e => StopRaised e self2
    | Ok None => StopWaiting self2
    | Ok (Some _) => StopReturned self2
    end.

End MidiCaptor.

(** ** Message objects and references

    In the classes a message is a value.  Where it matters that a Python
    variable holds a reference, messages live in a store: a reference
    denotes one object, [copy()] makes a new one, and an assignment to an
    attribute changes the object for all who hold a reference to it. *)
Module Objects.

Record store : Type := mkStore {
  next : nat;                    (* the reference the next new object gets *)
  object : nat -> Message
}.

(** [msg.copy()] *)
Definition copy (s : store) (msg : nat) : store * nat :=
  (mkStore (S (next s))
     (fun r => if Nat.eqb r (next s) then object s msg else object s r),
   next s).

(** [msg.time = t] *)
Definition assign_time (s : store) (msg : nat) (t : Q) : store :=
  mkStore (next s)
    (fun r => if Nat.eqb r msg then set_time (object s msg) t else object s r).

(** [MidiCaptor.receive(msg)], the captor's queue holding references. *)
Definition receive (s : store) (queue : list (option nat)) (msg : nat)
    : result (store * list (option nat)) :=
  if negb (truthy (time (object s msg))) then Raise MidiHubException
  else Ok (s, queue ++ [Some msg]).

(** The reading of the specification: [receive] queues a copy. *)
Definition receive_spec (s : store) (queue : list (option nat)) (msg : nat)
    : result (store * list (option nat)) :=
  if negb (truthy (time (object s msg))) then Raise MidiHubException
  else
    let '(s', c) := copy s msg in
    Ok (s', queue ++ [Some c]).

(** What the run loop finds when it takes the queue's entries. *)
Definition contents (s : store) (queue : list (option nat))
    : list (option Message) :=
  map (option_map (object s)) queue.

End Objects.

(** ** class MidiHub *)
Module MidiHub.

(** [TextureType] *)
Definition MONOPHONIC : Z := 1.
Definition POLYPHONIC : Z := 2.

(** [_signals] is left out: notifying a condition changes no attribute
    of the hub. *)
Record t : Type := mk {
  _texture_type : Z;
  _passthrough : bool;
  _open_notes : gset Z;
  _capture_threads : list MidiCaptor.t;
  _outport : list Message
}.

Definition init (texture_type : Z) (passthrough : bool) : t :=
  mk texture_type passthrough ∅ [] [].

Definition send (self : t) (msg : Message) : t :=
  mk (_texture_type self) (_passthrough self) (_open_notes self)
     (_capture_threads self) (_outport self ++ [msg]).

Definition with_open_notes (self : t) (s : gset Z) : t :=
  mk (_texture_type self) (_passthrough self) s
     (_capture_threads self) (_outport self).

Definition with_capture_threads (self : t) (ts : list MidiCaptor.t) : t :=
  mk (_texture_type self) (_passthrough self) (_open_notes self)
     ts (_outport self).

(** The [passthrough] setter. *)
Definition set_passthrough (self : t) (value : bool) : t :=
  if Bool.eqb (_passthrough self) value then self
  else
    mk (_texture_type self) value ∅ (_capture_threads self)
       (_outport self
        ++ map (fun p => new_note_off p 0) (elements (_open_notes self))).

(** A method of the hub changes the hub and then returns or raises. *)
Definition outcome : Type := t * option exn.

(** [for t in self._capture_threads: t.receive(msg.copy())] *)
Fixpoint deliver (msg : Message) (ts : list MidiCaptor.t)
    : list MidiCaptor.t * option exn :=
  match ts with
  | [] => ([], None)
  | c :: rest =>
      match MidiCaptor.receive c msg with
      | Raise e => (c :: rest, Some e)
      | Ok c' =>
          let '(rest', e) := deliver msg rest in
          (c' :: rest', e)
      end
  end.

(** The last part of [_handle_message]: passing the message through. *)
Definition pass_through (self : t) (msg : Message) : outcome :=
  if negb (_passthrough self) then (self, None)
  else if Z.eqb (_texture_type self) POLYPHONIC then
    match type msg with
    | note_on =>
        (send (with_open_notes self ({[note msg]} ∪ _open_notes self)) msg, None)
    | note_off =>
        (send (with_open_notes self (_open_notes self ∖ {[note msg]})) msg, None)
    | _ => (send self msg, None)
    end
  else if Z.eqb (_texture_type self) MONOPHONIC then
    if negb (Nat.leb (size (_open_notes self)) 1) then (self, Some AssertionError)
    else
      match type msg with
      | note_off =>
          if bool_decide (note msg ∈ _open_notes self) then
            let self1 := send self msg in
            match set_remove (PyMessage msg) (_open_notes self1) with
            | Ok s => (with_open_notes self1 s, None)
            | Raise e => (self1, Some e)
            end
          else (self, None)
      | note_on =>
          let closed :=
            if bool_decide (_open_notes self = ∅) then self
            else
              match set_pop (_open_notes self) with
              | Ok (p, s) => send (with_open_notes self s) (new_note_off p 0)
              | Raise _ => self
              end in
          let self2 := send closed msg in
          (with_open_notes self2 ({[note msg]} ∪ _open_notes self2), None)
      | _ => (send self msg, None)
      end
  else (self, None).

Definition _handle_message (self : t) (msg : Message) : outcome :=
  let alive := List.filter MidiCaptor.is_alive (_capture_threads self) in
  let '(ts, e) := deliver msg alive in
  let self1 := with_capture_threads self ts in
  match e with
  | Some e => (self1, Some e)
  | None => pass_through self1 msg
  end.

Definition _timestamp_and_handle_message (self : t) (msg : Message) (now : Q)
    : outcome :=
  match type msg with
  | program_change => (self, None)
  | _ => _handle_message self (set_time msg now)
  end.

(** Messages arriving one after the other, each with its arrival time;
    the hub is followed whether a dispatch raised or not. *)
Definition feed (self : t) (arrivals : list (Message * Q)) : t :=
  fold_left (fun h a => fst (_timestamp_and_handle_message h (fst a) (snd a)))
            arrivals self.

(** [start_capture] in its two steps.  First, to the end of the
    [with self._lock] block: the captor is constructed and appended to the
    hub's list, not yet started. *)
Definition start_capture_append (self : t) (qpm start_time : Q)
    (stop_time : option Q) (stop_signal : option Message)
    : t * MidiCaptor.t :=
  let captor_class :=
    if Z.eqb (_texture_type self) MONOPHONIC
    then MidiCaptor.Monophonic None
    else MidiCaptor.Polyphonic ∅ in
  let captor :=
    MidiCaptor.init captor_class qpm start_time stop_time stop_signal in
  (with_capture_threads self (_capture_threads self ++ [captor]), captor).

(** Then [captor.start()], outside the lock.  The captor is one object:
    where the hub's list still holds it, at position [i], it is started
    there too. *)
Definition start_capture_start (self : t) (i : nat) : t :=
  with_capture_threads self (alter MidiCaptor.start i (_capture_threads self)).

(** The two steps with nothing in between. *)
Definition start_capture (self : t) (qpm start_time : Q)
    (stop_time : option Q) (stop_signal : option Message)
    : t * MidiCaptor.t :=
  let '(appended, captor) :=
    start_capture_append self qpm start_time stop_time stop_signal in
  (start_capture_start appended (length (_capture_threads self)),
   MidiCaptor.start captor).

(** What callers and the transport do to a hub, one call after the
    other; the hub is followed whether a call raised or not. *)
Inductive call : Type :=
  | Arrive (msg : Message) (now : Q)
  | Handle (msg : Message)
  | SetPassthrough (value : bool)
  | StartCapture (qpm start_time : Q) (stop_time : option Q)
                 (stop_signal : option Message).

Definition perform (self : t) (c : call) : t :=
  match c with
  | Arrive msg now => fst (_timestamp_and_handle_message self msg now)
  | Handle msg => fst (_handle_message self msg)
  | SetPassthrough value => set_passthrough self value
  | StartCapture qpm start_time stop_time stop_signal =>
      fst (start_capture self qpm start_time stop_time stop_signal)
  end.


(** [captor.join()] then [captor.captured_sequence()], the captor having
    lived through [events]; [None] while [join] has not returned. *)
Definition join_and_read (captor : MidiCaptor.t) (events : list MidiCaptor.event)
    : result (option NoteSequence) :=
  joined ← MidiCaptor.join (MidiCaptor.simulate events captor);
  match joined with
  | None => Ok None
  | Some c => s ← MidiCaptor.captured_sequence c None; Ok (Some s)
  end.

Definition capture_sequence (self : t) (qpm start_time : Q)
    (stop_time : option Q) (stop_signal : option Message)
    (events : list MidiCaptor.event) : result (option NoteSequence) :=
  match stop_time, stop_signal with
  | None, None => Raise MidiHubException
  | _, _ =>
      let '(_, captor) := start_capture self start_time qpm stop_time stop_signal in
      join_and_read captor events
  end.

(** The reading of the specification: [start_capture] with the same
    four arguments, then join, then [captured_sequence()]. *)
Definition capture_sequence_spec (self : t) (qpm start_time : Q)
    (stop_time : option Q) (stop_signal : option Message)
    (events : list MidiCaptor.event) : result (option NoteSequence) :=
  match stop_time, stop_signal with
  | None, None => Raise MidiHubException
  | _, _ =>
      let '(_, captor) := start_capture self qpm start_time stop_time stop_signal in
      join_and_read captor events
  end.

End MidiHub.

(** ** Concrete objects used by the theorems below *)
Module Scenario.

(** A sequence with one tempo and no note, and one with a single note
    of pitch 60 from time 1 to time 10. *)
Definition empty_sequence : NoteSequence := mkNoteSequence 120 [120%Q] 0 [].
Definition one_note : NoteSequence :=
  mkNoteSequence 120 [120%Q] 10 [mkNote 60 100 1 10].

(** A note that starts at 2 and has no end yet. *)
Definition open_ended : NoteSequence :=
  mkNoteSequence 120 [120%Q] 0 [mkNote 60 100 2 0].

(** A player that accepts updates, with pitch 60 sounding and its
    note-off scheduled for time 10. *)
Definition sounding_60 : MidiPlayer.t :=
  MidiPlayer.mk [new_note_on 60 100 1] {[60%Z]} [new_note_off 60 10] true Missing.

(** The player constructed at time 1 for [open_ended], and what it has
    become once its thread, started at time 3/2, has played the note-on
    at time 2 and waits for an update: pitch 60 sounds. *)
Definition constructed_open_ended : MidiPlayer.t :=
  MidiPlayer.mk [] ∅ [new_note_on 60 100 2] true Missing.
Definition reached_sounding_60 : MidiPlayer.t :=
  MidiPlayer.mk [new_note_on 60 100 2] {[60%Z]} [] true Missing.

(** A monophonic captor started at time 0 that has captured a note-on
    for pitch 60 at time 1, through [_capture_message]. *)
Definition captor_started : MidiCaptor.t :=
  MidiCaptor.start (MidiCaptor.init (MidiCaptor.Monophonic None) 120 0 None None).
Definition captor_open_at_1 : MidiCaptor.t :=
  MidiCaptor._capture_message captor_started (new_note_on 60 100 1).

(** The same with the note-on at time 0, closed by nothing. *)
Definition captor_open_at_0 : MidiCaptor.t :=
  MidiCaptor._capture_message captor_started (new_note_on 60 100 0).

(** A captor holding a finished note from 5 to 6. *)
Definition captor_note_5_6 : MidiCaptor.t :=
  MidiCaptor._capture_message
    (MidiCaptor._capture_message captor_started (new_note_on 60 100 5))
    (new_note_off 60 6).

(** A captor whose thread has ended. *)
Definition captor_finished : MidiCaptor.t :=
  MidiCaptor.with_thread captor_started MidiCaptor.Finished.

(** A captor started at time 0 that stops on a note-on for pitch 60. *)
Definition stop_on_60 : Message := new_note_on 60 100 0.
Definition captor_with_signal : MidiCaptor.t :=
  MidiCaptor.start
    (MidiCaptor.init (MidiCaptor.Monophonic None) 120 0 None (Some stop_on_60)).

(** A monophonic hub with passthrough, fresh and with pitch 60 sounding. *)
Definition hub : MidiHub.t := MidiHub.init MidiHub.MONOPHONIC true.
Definition hub_sounding_60 : MidiHub.t :=
  MidiHub.feed hub [(new_note_on 60 100 0, 1%Q)].

End Scenario.

(** ** Invariants used in the proofs *)
Module Invariant.

(** A playback thread past its startup, with updates disabled, whose
    queue holds a note-off for each pitch of [l], with its time: distinct
    pitches that are all open. *)
Definition draining (th : MidiPlayer.thread) : Prop :=
  exists (at_ : MidiPlayer.pc) (self : MidiPlayer.t) (l : list (Z * Q)),
    th = MidiPlayer.Running at_ self
    /\ at_ <> MidiPlayer.Startup
    /\ MidiPlayer._allow_updates self = false
    /\ MidiPlayer._message_queue self
       = map (fun v => new_note_off (fst v) (snd v)) l
    /\ NoDup (map fst l)
    /\ (forall n, n ∈ map fst l -> n ∈ MidiPlayer._open_notes self).


End Invariant.

(** ** Notions used to state further properties *)
Module Schedule.

(** A queue in ascending order of time. *)
Fixpoint ascending (l : list Message) : Prop :=
  match l with
  | [] => True
  | x :: rest => (forall y, y ∈ rest -> (time x <= time y)%Q) /\ ascending rest
  end.

(** The note-on messages of the notes that start at or after [now]. *)
Definition future_note_ons (now : Q) (ns : list Note) : list Message :=
  map (fun n => new_note_on (pitch n) (note_velocity n) (start_time n))
      (List.filter (fun n => Qle_bool now (start_time n)) ns).

(** A note whose pitch and velocity mido accepts. *)
Definition in_range (n : Note) : bool :=
  data_byte (pitch n) && data_byte (note_velocity n).



End Schedule.

Module Capture.

(** What of a note never changes once it is captured. *)
Definition identity (n : Note) : Z * Z * Q :=
  (pitch n, note_velocity n, start_time n).

(** The open note of a monophonic captor is the last note captured; an
    open note of a polyphonic captor is a captured note of its pitch. *)
Definition wf (self : MidiCaptor.t) : Prop :=
  let ns := notes (MidiCaptor._captured_sequence self) in
  match MidiCaptor.open self with
  | MidiCaptor.Monophonic None => True
  | MidiCaptor.Monophonic (Some i) => S i = length ns
  | MidiCaptor.Polyphonic o =>
      forall (p : Z) (i : nat), o !! p = Some i -> pitch <$> ns !! i = Some p
  end.

(** [_capture_message] called for one message after the other. *)
Definition capture_all (self : MidiCaptor.t) (msgs : list Message) : MidiCaptor.t :=
  fold_left MidiCaptor._capture_message msgs self.

(** A captor as constructed never captures through its thread: it has no
    [_stop_message], its sequence has no note, and its thread runs, has
    finished, or died of [AttributeError]. *)
Definition thread_only_waits (self : MidiCaptor.t) : Prop :=
  MidiCaptor._stop_message self = Missing
  /\ notes (MidiCaptor._captured_sequence self) = []
  /\ (MidiCaptor.thread self = MidiCaptor.Alive
      \/ MidiCaptor.thread self = MidiCaptor.Finished
      \/ MidiCaptor.thread self = MidiCaptor.Died AttributeError).

End Capture.

Module Output.

(** The pitches sounding on a port after the messages sent to it: a
    note-on starts its pitch, a note-off ends it. *)
Definition play (s : gset Z) (m : Message) : gset Z :=
  match type m with
  | note_on => {[note m]} ∪ s
  | note_off => s ∖ {[note m]}
  | _ => s
  end.




(** The arrivals [_timestamp_and_handle_message] lets through, with
    their arrival times. *)
Definition stamped (arrivals : list (Message * Q)) : list Message :=
  map (fun a => set_time (fst a) (snd a))
      (List.filter (fun a => negb (msg_type_eqb (type (fst a)) program_change))
                   arrivals).

End Output.

(** ** class Metronome, without its timing loop *)
Module Metronome.

Record t : Type := mk {
  _start_time : Q;
  _qpm : Q;
  _velocity : Z;
  _pitch : Z;
  _duration : Q;
  _stop_metronome : bool;
  thread : MidiCaptor.thread_state
}.

(** [__init__(outport, start_time, qpm)] with the default tick. *)
Definition init (start_time qpm : Q) : t :=
  mk start_time qpm 64 95 0.05 false MidiCaptor.NotStarted.

(** [stop()]: the flag is set, then [join()].  A running loop tests the
    flag before its next tick and returns. *)
Definition stop (self : t) : t * option exn :=
  let flagged th :=
    mk (_start_time self) (_qpm self) (_velocity self) (_pitch self)
       (_duration self) true th in
  match thread self with
  | MidiCaptor.NotStarted => (flagged MidiCaptor.NotStarted, Some RuntimeError)
  | MidiCaptor.Alive => (flagged MidiCaptor.Finished, None)
  | th => (flagged th, None)
  end.

End Metronome.

(** ** MidiHub.start_metronome and stop_metronome

    They read and write one attribute of the hub, [_metronome], which the
    hub's constructor does not assign; they are functions of it. *)
Module MidiHubMetronome.

Definition slot : Type := attr (option Metronome.t).

Definition stop_metronome (m : slot) : slot * option exn :=
  match getattr m with
  | Raise e => (m, Some e)
  | Ok None => (m, None)
  | Ok (Some metronome) =>
      match Metronome.stop metronome with
      | (stopped, Some e) => (Bound (Some stopped), Some e)
      | (_, None) => (Bound None, None)
      end
  end.

Definition start_metronome (m : slot) (start_time qpm : Q) : slot * option exn :=
  match getattr m with
  | Raise e => (m, Some e)
  | Ok current =>
      let '(m1, e) :=
        match current with
        | Some _ => stop_metronome m
        | None => (m, None)
        end in
      match e with
      | Some e => (m1, Some e)
      | None => (Bound (Some (Metronome.init start_time qpm)), None)
      end
  end.

Inductive call : Type :=
  | Start (start_time qpm : Q)
  | Stop.

Definition perform (m : slot) (c : call) : slot :=
  match c with
  | Start start_time qpm => fst (start_metronome m start_time qpm)
  | Stop => fst (stop_metronome m)
  end.

End MidiHubMetronome.

(** * Properties *)

(** ** Sorting keeps the messages *)

Lemma insert_by_time_elem (m x : Message) (l : list Message) :
  x ∈ insert_by_time m l ↔ x = m ∨ x ∈ l.
Proof.
  induction l as [|y l IH]; simpl.
  - rewrite list_elem_of_singleton, elem_of_nil. tauto.
  - destruct (Qle_bool (time y) (time m)).
    + rewrite !elem_of_cons, IH. tauto.
    + rewrite !elem_of_cons. tauto.
Qed.

Lemma fold_insert_elem (x : Message) (l acc : list Message) :
  x ∈ fold_left (fun a m => insert_by_time m a) l acc ↔ x ∈ l ∨ x ∈ acc.
Proof.
  revert acc. induction l as [|y l IH]; intros acc; simpl.
  - rewrite elem_of_nil. tauto.
  - rewrite IH, insert_by_time_elem, elem_of_cons. tauto.
Qed.

Lemma sorted_by_time_elem (x : Message) (l : list Message) :
  x ∈ sorted_by_time l ↔ x ∈ l.
Proof. unfold sorted_by_time. rewrite fold_insert_elem, elem_of_nil. tauto. Qed.

(** ** MidiPlayer.update_sequence *)
Section PlayerUpdate.

Import MidiPlayer.

Lemma Message_note_on_ok (n v : Z) (t0 : Q) (m : Message) :
  Message_note_on n v t0 = Ok m ->
  m = new_note_on n v t0 /\ data_byte n && data_byte v = true.
Proof.
  unfold Message_note_on. destruct (data_byte n && data_byte v); [|discriminate].
  intros H. injection H as <-. auto.
Qed.

Lemma Message_note_off_ok (n : Z) (t0 : Q) (m : Message) :
  Message_note_off n t0 = Ok m -> m = new_note_off n t0 /\ data_byte n = true.
Proof.
  unfold Message_note_off. destruct (data_byte n); [|discriminate].
  intros H. injection H as <-. auto.
Qed.

(** The first loop only produces messages for pitches of the new
    sequence, and only such pitches enter [notes_to_close]. *)
Lemma scan_notes_pitches (self : t) (ph : Q) (ns : list Note) :
  forall (l : list Message) (c : gset Z) (l' : list Message) (c' : gset Z),
    scan_notes self ph ns l c = Ok (l', c') ->
    (forall m, m ∈ l' -> m ∈ l ∨ note m ∈ map pitch ns)
    /\ (forall p, p ∈ c' -> p ∈ c ∨ p ∈ map pitch ns).
Proof.
  induction ns as [|n ns IH]; intros l c l' c' H; simpl in H.
  - injection H as Hl Hc. subst l' c'. split; auto.
  - assert (Hstep : forall l2 c2,
               (forall m, m ∈ l2 -> m ∈ l ∨ note m = pitch n) ->
               (forall p, p ∈ c2 -> p ∈ c ∨ p = pitch n) ->
               scan_notes self ph ns l2 c2 = Ok (l', c') ->
               (forall m, m ∈ l' -> m ∈ l ∨ note m ∈ map pitch (n :: ns))
               /\ (forall p, p ∈ c' -> p ∈ c ∨ p ∈ map pitch (n :: ns))).
    { intros l2 c2 Hl2 Hc2 Hs. destruct (IH _ _ _ _ Hs) as [A B].
      split.
      - intros m Hm. simpl. rewrite elem_of_cons.
        destruct (A m Hm) as [Hin|Hin]; [destruct (Hl2 m Hin)|]; auto.
      - intros p Hp. simpl. rewrite elem_of_cons.
        destruct (B p Hp) as [Hin|Hin]; [destruct (Hc2 p Hin)|]; auto. }
    assert (Htail : forall l1,
               (forall m, m ∈ l1 -> m ∈ l ∨ note m = pitch n) ->
               (if Qle_bool ph (end_time n)
                then off ← Message_note_off (pitch n) (end_time n);
                     ph0 ← getattr (_playhead self);
                     if Qlt_bool (start_time n) ph0
                        && negb (bool_decide (pitch n ∈ _open_notes self))
                     then scan_notes self ph ns (l1 ++ [off]) ({[pitch n]} ∪ c)
                     else scan_notes self ph ns (l1 ++ [off]) c
                else scan_notes self ph ns l1 c) = Ok (l', c') ->
               (forall m, m ∈ l' -> m ∈ l ∨ note m ∈ map pitch (n :: ns))
               /\ (forall p, p ∈ c' -> p ∈ c ∨ p ∈ map pitch (n :: ns))).
    { intros l1 Hl1 Ht. destruct (Qle_bool ph (end_time n)).
      - destruct (Message_note_off (pitch n) (end_time n)) as [off|e] eqn:Hoff;
          simpl in Ht; [|discriminate].
        apply Message_note_off_ok in Hoff as [-> _].
        destruct (getattr (_playhead self)) as [v|e]; simpl in Ht; [|discriminate].
        assert (Hl2 : forall m, m ∈ l1 ++ [new_note_off (pitch n) (end_time n)] ->
                                m ∈ l ∨ note m = pitch n).
        { intros m. rewrite elem_of_app, list_elem_of_singleton.
          intros [?| ->]; auto. }
        destruct (Qlt_bool (start_time n) v
                  && negb (bool_decide (pitch n ∈ _open_notes self))).
        + eapply Hstep; [exact Hl2| |exact Ht].
          intros p [Hp|Hp]%elem_of_union; auto.
          apply elem_of_singleton in Hp. auto.
        + eapply Hstep; [exact Hl2| |exact Ht]. auto.
      - eapply Hstep; [exact Hl1| |exact Ht]. auto. }
    destruct (Qle_bool ph (start_time n)).
    + destruct (Message_note_on (pitch n) (note_velocity n) (start_time n))
        as [on|e] eqn:Hon; simpl in H; [|discriminate].
      apply Message_note_on_ok in Hon as [-> _].
      refine (Htail _ _ H).
      intros m. rewrite elem_of_app, list_elem_of_singleton.
      intros [?| ->]; auto.
    + simpl in H. refine (Htail l _ H). auto.
Qed.

(** The second loop only adds old messages whose pitch is to be closed. *)
Lemma scan_queue_pitches (old : list Message) :
  forall (l : list Message) (c : gset Z) (l' : list Message),
    scan_queue old l c = Ok l' ->
    forall m, m ∈ l' -> m ∈ l ∨ note m ∈ c.
Proof.
  induction old as [|msg old IH]; intros l c l' H m Hm; simpl in H.
  - injection H as Hl. subst l'. auto.
  - destruct (bool_decide (c = ∅)); [injection H as Hl; subst l'; auto|].
    destruct (bool_decide (note msg ∈ c)) eqn:Hin.
    + apply bool_decide_eq_true in Hin.
      destruct (msg_type_eqb (type msg) note_off); [|discriminate].
      destruct (IH _ _ _ H m Hm) as [Hm'|Hm'].
      * apply elem_of_app in Hm' as [?|Hm']; auto.
        apply list_elem_of_singleton in Hm' as ->. auto.
      * right. apply elem_of_difference in Hm' as [Hc _]. exact Hc.
    + eauto.
Qed.

(** Whatever the player's state, a pitch that does not occur in the
    new sequence has no message at all in the new queue. *)
Lemma update_sequence_only_new_pitches (self self' : t)
    (sequence : NoteSequence) (now : Q) :
  update_sequence self sequence now = Ok self' ->
  forall m, m ∈ _message_queue self' -> note m ∈ map pitch (notes sequence).
Proof.
  unfold update_sequence. intros H m Hm.
  destruct (negb (_allow_updates self)); [discriminate|].
  destruct (scan_notes self now (notes sequence) [] ∅) as [[l c]|e] eqn:Hn;
    simpl in H; [|discriminate].
  destruct (scan_queue (_message_queue self) l c) as [l'|e] eqn:Hq;
    simpl in H; [|discriminate].
  injection H as Hs. subst self'. simpl in Hm. apply (proj1 (sorted_by_time_elem _ _)) in Hm.
  destruct (scan_notes_pitches _ _ _ _ _ _ _ Hn) as [A B].
  destruct (scan_queue_pitches _ _ _ _ Hq m Hm) as [Hl|Hc].
  - destruct (A m Hl) as [Hnil|?]; [|done]. by apply elem_of_nil in Hnil.
  - destruct (B _ Hc) as [He|?]; [|done]. by apply not_elem_of_empty in He.
Qed.

(** A new note within mido's range that ends at or after the playhead
    makes the method read [self._playhead], which the class never
    assigns. *)
Lemma update_sequence_future_note_raises (self : t) (n : Note)
    (rest : list Note) (q tt now : Q) (ts : list Q) :
  _allow_updates self = true ->
  _playhead self = Missing ->
  data_byte (pitch n) && data_byte (note_velocity n) = true ->
  Qle_bool now (end_time n) = true ->
  update_sequence self (mkNoteSequence q ts tt (n :: rest)) now
  = Raise AttributeError.
Proof.
  intros Ha Hp Hr He. unfold update_sequence. rewrite Ha. simpl.
  unfold Message_note_on, Message_note_off. rewrite Hr.
  apply andb_true_iff in Hr as [Hr _]. rewrite Hr, He, Hp.
  by destruct (Qle_bool now (start_time n)).
Qed.

End PlayerUpdate.

(** C1: at its failing inputs.  Constructing a player for an ordinary
    one-note sequence raises [AttributeError], because [update_sequence]
    reads [self._playhead].  When pitch 60 is sounding with its note-off
    pending for time 10 and the new sequence has no note, the new queue is
    empty: it holds no note-off for pitch 60 at time 10, where the
    docstring promises one.  And a player constructed and run by the class's
    own methods reaches a state where pitch 60 sounds; an update to the
    empty sequence leaves it sounding with nothing queued. *)
Theorem update_sequence_orphans_sounding_note :
  MidiPlayer.init Scenario.one_note true 0 = Raise AttributeError
  /\ MidiPlayer.update_sequence Scenario.sounding_60 Scenario.empty_sequence 5
     = Ok (MidiPlayer.with_queue Scenario.sounding_60 [])
  /\ count_note_off_at 60 10
       (MidiPlayer._message_queue (MidiPlayer.with_queue Scenario.sounding_60 []))
     = 0%nat
  /\ MidiPlayer.init Scenario.open_ended true 1 = Ok Scenario.constructed_open_ended
  /\ MidiPlayer.run [1.5%Q; 2%Q; 2%Q] Scenario.constructed_open_ended
     = MidiPlayer.Running (MidiPlayer.Waiting None) Scenario.reached_sounding_60
  /\ MidiPlayer.update_sequence Scenario.reached_sounding_60
       Scenario.empty_sequence 5
     = Ok Scenario.reached_sounding_60.
Proof. repeat split; vm_compute; reflexivity. Qed.

(** ** MidiPlayer.run *)
Section PlayerRun.

Import MidiPlayer.

Lemma run_steps_crashed (clock : list Q) (e : exn) (self : t) :
  run_steps clock (Crashed e self) = Crashed e self.
Proof. induction clock as [|now clock IH]; simpl; auto. Qed.

(** No loop test makes the thread return: [run] has no [return] and no
    [break]. *)
Lemma step_never_returns (now : Q) (th : thread) (self' : t) :
  step now th = Returned self' -> exists self, th = Returned self.
Proof.
  destruct th as [[| |timeout] self|self|e self]; simpl; intros H.
  - destruct (_message_queue self) as [|m rest]; [discriminate|].
    destruct (Qlt_bool (time m) now); discriminate.
  - destruct (_message_queue self) as [|m rest].
    + destruct (_allow_updates self); discriminate.
    + destruct (Qlt_bool now (time m)); [discriminate|].
      destruct (type m); try discriminate.
      destruct (bool_decide (note m ∈ _open_notes self)); discriminate.
  - discriminate.
  - eauto.
  - discriminate.
Qed.

Lemma draining_step (now : Q) (th : thread) :
  Invariant.draining th -> Invariant.draining (step now th).
Proof.
  intros (at_ & self & l & -> & Hpc & Hup & Hq & Hnd & Hopen).
  destruct at_ as [| |timeout]; [done| |]; simpl.
  - rewrite Hq. destruct l as [|[x t0] l]; simpl.
    + rewrite Hup. exists Loop, self, []. rewrite Hq. repeat split; auto; done.
    + destruct (Qlt_bool now t0).
      * exists (Waiting (Some (t0 - now)%Q)), self, ((x, t0) :: l).
        repeat split; auto; done.
      * simpl in Hnd, Hopen.
        assert (Hx : x ∈ _open_notes self) by (apply Hopen; left).
        rewrite (bool_decide_eq_true_2 _ Hx).
        apply NoDup_cons in Hnd as [Hnx Hnd].
        eexists Loop, _, l. repeat split; simpl; auto; try done.
        intros n Hn. apply elem_of_difference. split.
        -- apply Hopen. by right.
        -- intros ->%elem_of_singleton. contradiction.
  - exists Loop, self, l. repeat split; auto; done.
Qed.

Lemma draining_run_steps (clock : list Q) (th : thread) :
  Invariant.draining th -> Invariant.draining (run_steps clock th).
Proof.
  revert th. induction clock as [|now clock IH]; intros th H; simpl; auto.
  apply IH, draining_step, H.
Qed.

Lemma draining_stop_locked (self : t) (timeout : option Q)
    (visits : list (Z * Q)) :
  iterates (_open_notes self) (map fst visits) ->
  Invariant.draining (Running (Waiting timeout) (stop_locked self visits)).
Proof.
  intros [Hnd Hin].
  exists (Waiting timeout), (stop_locked self visits), visits.
  repeat split; simpl; auto; try done.
  intros n. apply Hin.
Qed.

(** The order of [elements], with one clock reading for all the notes,
    is one of the iterations over a set. *)
Lemma iterates_elements (s : gset Z) (now : Q) :
  iterates s (map fst (map (fun n => (n, now)) (elements s))).
Proof.
  rewrite map_map. simpl. rewrite map_id. split.
  - apply NoDup_elements.
  - intros n. apply elem_of_elements.
Qed.

End PlayerRun.

(** C4: at its failing input.  [stop()] finds the playback thread in a
    wait, where the lock is free.  From the player that [stop()] leaves
    under the lock, the loop sends the note-offs and then tests an empty
    queue with updates disabled again and again: whatever the order in
    which [stop()] visited the open notes, whatever the clock then and
    after, the thread has neither returned nor raised, so [join()] does
    not return.  For the player that waits with pitch 60 sounding and is
    stopped at time 5: the note-off is sent, no note is open, and the
    thread is still at the loop test at times 6 and 7. *)
Theorem run_never_exits_after_stop :
  (forall (self : MidiPlayer.t) (timeout : option Q) (visits : list (Z * Q))
          (clock : list Q),
      MidiPlayer.iterates (MidiPlayer._open_notes self) (map fst visits) ->
      MidiPlayer.exited
        (MidiPlayer.run_steps clock
           (MidiPlayer.Running (MidiPlayer.Waiting timeout)
              (MidiPlayer.stop_locked self visits)))
      = false)
  /\ (forall (self : MidiPlayer.t) (timeout : option Q) (now : Q) (clock : list Q),
      MidiPlayer.exited
        (MidiPlayer.run_steps clock
           (MidiPlayer.Running (MidiPlayer.Waiting timeout)
              (MidiPlayer.stop_locked self
                 (map (fun n => (n, now)) (elements (MidiPlayer._open_notes self))))))
      = false)
  /\ MidiPlayer.run_steps [5%Q; 5%Q; 6%Q; 7%Q]
       (MidiPlayer.Running (MidiPlayer.Waiting None)
          (MidiPlayer.stop_locked Scenario.reached_sounding_60 [(60%Z, 5%Q)]))
     = MidiPlayer.Running MidiPlayer.Loop
         (MidiPlayer.mk [new_note_on 60 100 2; new_note_off 60 5] ∅ [] false
            Missing).
Proof.
  assert (H : forall (self : MidiPlayer.t) (timeout : option Q)
                     (visits : list (Z * Q)) (clock : list Q),
             MidiPlayer.iterates (MidiPlayer._open_notes self) (map fst visits) ->
             MidiPlayer.exited
               (MidiPlayer.run_steps clock
                  (MidiPlayer.Running (MidiPlayer.Waiting timeout)
                     (MidiPlayer.stop_locked self visits)))
             = false).
  { intros self timeout visits clock Hv.
    destruct (draining_run_steps clock _ (draining_stop_locked self timeout visits Hv))
      as (at_ & self' & l & -> & _).
    reflexivity. }
  split; [exact H|]. split; [|vm_compute; reflexivity].
  intros self timeout now clock. apply H, iterates_elements.
Qed.

Lemma run_never_exits_after_stop_witness :
  MidiPlayer.exited
    (MidiPlayer.run_steps [5%Q; 6%Q]
       (MidiPlayer.Running (MidiPlayer.Waiting None)
          (MidiPlayer.stop_locked Scenario.reached_sounding_60 [(60%Z, 5%Q)])))
  = false.
Proof.
  apply (proj1 run_never_exits_after_stop
           Scenario.reached_sounding_60 None [(60%Z, 5%Q)] [5%Q; 6%Q]).
  split.
  - simpl. repeat constructor. intros H. by apply elem_of_nil in H.
  - intros n. simpl. rewrite list_elem_of_singleton.
    unfold Scenario.reached_sounding_60. simpl. by rewrite elem_of_singleton.
Defined.

(** C10: at its failing input.  The constructor accepts a sequence with
    one tempo and no note and leaves an empty queue; the first thing the
    thread does is read [self._message_queue[0]], which raises
    [IndexError].  The same happens once the startup loop has dropped the
    last past-dated message: the note-on at time 2 of [open_ended], with
    the thread starting at time 3. *)
Theorem run_startup_reads_empty_queue :
  (forall (allow_updates : bool) (constructed started : Q) (clock : list Q),
      MidiPlayer.init Scenario.empty_sequence allow_updates constructed
      = Ok (MidiPlayer.mk [] ∅ [] allow_updates Missing)
      /\ MidiPlayer.run (started :: clock) (MidiPlayer.mk [] ∅ [] allow_updates Missing)
         = MidiPlayer.Crashed IndexError (MidiPlayer.mk [] ∅ [] allow_updates Missing))
  /\ MidiPlayer.init Scenario.open_ended false 1
     = Ok (MidiPlayer.mk [] ∅ [new_note_on 60 100 2] false Missing)
  /\ MidiPlayer.run [3%Q; 3%Q] (MidiPlayer.mk [] ∅ [new_note_on 60 100 2] false Missing)
     = MidiPlayer.Crashed IndexError (MidiPlayer.mk [] ∅ [] false Missing).
Proof.
  split; [|split; vm_compute; reflexivity].
  intros allow_updates constructed started clock. split.
  - destruct allow_updates; reflexivity.
  - unfold MidiPlayer.run. simpl. apply run_steps_crashed.
Qed.

(** ** MidiCaptor *)
Section Captor.

Import MidiCaptor.

(** What [captured_sequence] does guarantee: on a running
    captor the result's [total_time] is the given end time. *)
Lemma captured_sequence_total_time (self : t) (e : Q) :
  is_alive self = true ->
  exists s, captured_sequence self (Some e) = Ok s /\ total_time s = e.
Proof. intros H. unfold captured_sequence. rewrite H. eauto. Qed.

(** The example of the specification: an open note starting at 0. *)
Lemma captured_sequence_open_note_at_0 :
  captured_sequence Scenario.captor_open_at_0 (Some 1.5%Q)
  = Ok (mkNoteSequence 120 [] 1.5 [mkNote 60 100 0 1.5]).
Proof. reflexivity. Qed.

(** The loop compares a note's start with the note's own end: an open
    note (end 0) that starts after time 0 cuts the sequence. *)
Lemma close_notes_cuts_at_open_note (e : Q) (n : Note) (rest : list Note) :
  Qeq_bool (end_time n) 0 = true ->
  Qlt_bool 0 (start_time n) = true ->
  close_notes e (n :: rest) = [].
Proof.
  intros He Hs. simpl.
  assert (H : Qlt_bool (end_time n) (start_time n) = true).
  { unfold Qlt_bool in *. apply negb_true_iff in Hs. apply negb_true_iff.
    apply Qeq_bool_iff in He.
    destruct (Qle_bool (start_time n) (end_time n)) eqn:Hle; [|reflexivity].
    apply Qle_bool_iff in Hle. rewrite He in Hle.
    apply Qle_bool_iff in Hle. congruence. }
  rewrite H. reflexivity.
Qed.

(** [stop] never raises the hub exception: its test reads the method
    object, not the method's result. *)
Lemma stop_raises_only_from_join (self self' : t) (stop_time : option Q)
    (now : Q) (e : exn) :
  stop self stop_time now = StopRaised e self' ->
  e = RuntimeError /\ thread self = NotStarted.
Proof.
  unfold stop, join. simpl.
  destruct (thread self); intros H; try discriminate.
  injection H as <- _. auto.
Qed.


(** A message of the capture window makes [run] read
    [self._stop_message], which nothing assigns: the thread dies. *)
Lemma step_message_in_window_dies (self : t) (msg : Message)
    (q : list (option Message)) (now : Q) :
  thread self = Alive ->
  _stop_message self = Missing ->
  _stop_time self = None ->
  _receive_queue self = Some msg :: q ->
  Qle_bool (time msg) (_start_time self) = false ->
  step now self = with_thread (with_queue self q) (Died AttributeError).
Proof.
  intros Ht Hm Hs Hq Hw. unfold step, is_alive, dequeue.
  rewrite Ht, Hs, Hq, Hw, Hm. reflexivity.
Qed.

(** A message dated at or before the start time is dropped and the
    capture goes on. *)
Lemma step_message_before_start (self : t) (msg : Message)
    (q : list (option Message)) (now : Q) :
  thread self = Alive ->
  _stop_time self = None ->
  _receive_queue self = Some msg :: q ->
  Qle_bool (time msg) (_start_time self) = true ->
  step now self = with_queue self q.
Proof.
  intros Ht Hs Hq Hw. unfold step, is_alive, dequeue.
  rewrite Ht, Hs, Hq, Hw. reflexivity.
Qed.

End Captor.

(** C2: at its failing inputs.  An open note that starts at time 1 is not
    closed at the end time 3/2 but removed, because the loop tests
    [note.start_time > note.end_time]; and a note from 5 to 6, which
    starts after the end time 3, is not dropped but kept with its end
    moved to 3. *)
Theorem captured_sequence_drops_open_note :
  MidiCaptor.captured_sequence Scenario.captor_open_at_1 (Some 1.5%Q)
  = Ok (mkNoteSequence 120 [] 1.5 [])
  /\ MidiCaptor.captured_sequence Scenario.captor_note_5_6 (Some 3%Q)
     = Ok (mkNoteSequence 120 [] 3 [mkNote 60 100 5 3]).
Proof. split; reflexivity. Qed.

(** C7: at its failing input.  On a captor whose thread has ended,
    [stop()] at time 7 raises nothing: it sets the stop time, queues the
    wake token and returns from [join()]. *)
Theorem stop_finished_captor_does_not_raise :
  MidiCaptor.stop Scenario.captor_finished None 7
  = MidiCaptor.StopReturned
      (MidiCaptor.with_queue
         (MidiCaptor.with_stop_time Scenario.captor_finished (Some 7%Q))
         [None]).
Proof. reflexivity. Qed.

(** C8: at its failing input.  The captor stops on a note-on for pitch
    60; such a message, dated 1, is delivered and the loop takes a turn.
    The thread dies with [AttributeError] at [self._stop_message], and the
    captured sequence is left as it was, not closed at the message's
    time. *)
Theorem run_stop_signal_raises :
  let after :=
    MidiCaptor.simulate
      [MidiCaptor.Deliver (new_note_on 60 100 1); MidiCaptor.Tick 2]
      Scenario.captor_with_signal in
  MidiCaptor.matches_signal (new_note_on 60 100 1)
    (MidiCaptor._stop_signal Scenario.captor_with_signal) = true
  /\ MidiCaptor.thread after = MidiCaptor.Died AttributeError
  /\ MidiCaptor._captured_sequence after
     = MidiCaptor._captured_sequence Scenario.captor_with_signal
  /\ total_time (MidiCaptor._captured_sequence after) = 0%Q.
Proof. repeat split; reflexivity. Qed.

(** C9, as stated, fails on a message whose time is set: [receive] puts
    the object it was given into the queue, reference 0 here, where the
    reading with a copy puts a new object, reference 1.  The difference
    shows when the caller then changes its message's time to 9: the queue
    of the code holds a message dated 9, the queue of the reading one
    dated 1. *)
Lemma receive_queues_the_object_itself :
  let s := Objects.mkStore 1 (fun _ => new_note_on 60 100 1) in
  Objects.receive s [] 0 = Ok (s, [Some 0%nat])
  /\ Objects.receive s [] 0 <> Objects.receive_spec s [] 0
  /\ Objects.contents (Objects.assign_time s 0 9) [Some 0%nat]
     = [Some (new_note_on 60 100 9)]
  /\ match Objects.receive_spec s [] 0 with
     | Ok (s', queue) =>
         queue = [Some 1%nat]
         /\ Objects.contents (Objects.assign_time s' 0 9) queue
            = [Some (new_note_on 60 100 1)]
     | Raise _ => False
     end.
Proof.
  split; [reflexivity|]. split; [|split; [reflexivity|split; reflexivity]].
  intros H. unfold Objects.receive, Objects.receive_spec in H. simpl in H.
  assert (Hq : [Some 0%nat] = [Some 1%nat]) by congruence.
  discriminate Hq.
Qed.

(** C9, amended: [receive] raises, and then the hub exception, exactly
    when the message's time is unset, that is 0; otherwise it puts the
    message it was given, the object itself and not a copy, at the back
    of the captor's queue, and changes nothing else of the captor or of
    the message. *)
Theorem receive_raises_or_queues_the_object :
  (forall (s : Objects.store) (queue : list (option nat)) (msg : nat),
      (Objects.receive s queue msg = Raise MidiHubException
       <-> time (Objects.object s msg) == 0)
      /\ (forall e, Objects.receive s queue msg = Raise e -> e = MidiHubException)
      /\ (~ time (Objects.object s msg) == 0 ->
          Objects.receive s queue msg = Ok (s, queue ++ [Some msg])))
  /\ (forall (self : MidiCaptor.t) (msg : Message),
      (MidiCaptor.receive self msg = Raise MidiHubException <-> time msg == 0)
      /\ (forall e, MidiCaptor.receive self msg = Raise e -> e = MidiHubException)
      /\ (~ time msg == 0 ->
          exists self',
            MidiCaptor.receive self msg = Ok self'
            /\ MidiCaptor._receive_queue self'
               = MidiCaptor._receive_queue self ++ [Some msg]
            /\ MidiCaptor._captured_sequence self'
               = MidiCaptor._captured_sequence self
            /\ MidiCaptor._start_time self' = MidiCaptor._start_time self
            /\ MidiCaptor._stop_time self' = MidiCaptor._stop_time self
            /\ MidiCaptor._stop_signal self' = MidiCaptor._stop_signal self
            /\ MidiCaptor._stop_message self' = MidiCaptor._stop_message self
            /\ MidiCaptor.open self' = MidiCaptor.open self
            /\ MidiCaptor.thread self' = MidiCaptor.thread self)).
Proof.
  split.
  - intros s queue msg. unfold Objects.receive, truthy. rewrite negb_involutive.
    destruct (Qeq_bool (time (Objects.object s msg)) 0) eqn:H.
    + apply Qeq_bool_iff in H. split; [tauto|]. split.
      * intros e He. congruence.
      * intros Hn. contradiction.
    + apply Qeq_bool_neq in H. split; [|split].
      * split; [discriminate|contradiction].
      * intros e He. discriminate He.
      * reflexivity.
  - intros self msg. unfold MidiCaptor.receive, truthy. rewrite negb_involutive.
    destruct (Qeq_bool (time msg) 0) eqn:H.
    + apply Qeq_bool_iff in H. split; [tauto|]. split.
      * intros e He. congruence.
      * intros Hn. contradiction.
    + apply Qeq_bool_neq in H. split; [|split].
      * split; [discriminate|contradiction].
      * intros e He. discriminate He.
      * intros _. eexists. split; [reflexivity|]. simpl. repeat split.
Qed.

Lemma receive_raises_or_queues_the_object_witness :
  Objects.receive (Objects.mkStore 1 (fun _ => new_note_on 60 100 1)) [] 0
  = Ok (Objects.mkStore 1 (fun _ => new_note_on 60 100 1), [] ++ [Some 0%nat])
  /\ exists self',
       MidiCaptor.receive Scenario.captor_started (new_note_on 60 100 1) = Ok self'
       /\ MidiCaptor._receive_queue self'
          = MidiCaptor._receive_queue Scenario.captor_started
            ++ [Some (new_note_on 60 100 1)].
Proof.
  split.
  - apply (proj2 (proj2 (proj1 receive_raises_or_queues_the_object
                           (Objects.mkStore 1 (fun _ => new_note_on 60 100 1))
                           [] 0%nat))).
    intros H. vm_compute in H. discriminate H.
  - assert (Hn : ~ time (new_note_on 60 100 1) == 0).
    { intros H. vm_compute in H. discriminate H. }
    destruct (proj2 (proj2 (proj2 receive_raises_or_queues_the_object
                              Scenario.captor_started (new_note_on 60 100 1))) Hn)
      as (self' & Hr & Hq & _).
    exists self'. split; [exact Hr|exact Hq].
Defined.

(** ** MidiHub *)
Section Hub.

Import MidiHub.

(** Reduce the field accesses and updates of a hub, nothing else. *)
Ltac hub_fields :=
  cbn [_texture_type _passthrough _open_notes _capture_threads _outport
       with_capture_threads with_open_notes send negb].








(** A message whose time is set reaches the queue of every captor. *)
Lemma deliver_stamped (msg : Message) (ts : list MidiCaptor.t) :
  ~ time msg == 0 ->
  deliver msg ts = (map (fun c => MidiCaptor.put_nowait c (Some msg)) ts, None).
Proof.
  intros Hn.
  assert (Hf : Qeq_bool (time msg) 0 = false).
  { destruct (Qeq_bool (time msg) 0) eqn:He; [|reflexivity].
    apply Qeq_bool_iff in He. contradiction. }
  assert (Hr : forall c, MidiCaptor.receive c msg
                         = Ok (MidiCaptor.put_nowait c (Some msg))).
  { intros c. unfold MidiCaptor.receive, truthy. rewrite Hf. reflexivity. }
  induction ts as [|c ts IH]; simpl; [reflexivity|].
  rewrite Hr, IH. reflexivity.
Qed.


(** A note-off for the sounding pitch is sent on, and then
    [self._open_notes.remove(msg)] raises: the set keeps the pitch. *)
Lemma handle_note_off_sounding_raises (h : t) (msg : Message)
    (ts : list MidiCaptor.t) :
  _texture_type h = MONOPHONIC ->
  _passthrough h = true ->
  size (_open_notes h) ≤ 1 ->
  type msg = note_off ->
  note msg ∈ _open_notes h ->
  deliver msg (List.filter MidiCaptor.is_alive (_capture_threads h)) = (ts, None) ->
  _handle_message h msg
  = (mk MONOPHONIC true (_open_notes h) ts (_outport h ++ [msg]), Some KeyError).
Proof.
  intros Ht Hp Hs Hm Hin Hd. unfold _handle_message. rewrite Hd.
  unfold pass_through. hub_fields. rewrite Hp, Ht, Hm. hub_fields.
  change (Z.eqb MONOPHONIC POLYPHONIC) with false.
  change (Z.eqb MONOPHONIC MONOPHONIC) with true.
  apply Nat.leb_le in Hs. rewrite Hs. hub_fields.
  rewrite (bool_decide_eq_true_2 _ Hin).
  unfold set_remove, send, with_capture_threads. hub_fields.
  rewrite Ht, Hp. reflexivity.
Qed.

(** [capture_sequence] hands its first two arguments to [start_capture]
    in the other order. *)
Lemma capture_sequence_swaps_arguments (h : t) (qpm start_time : Q)
    (stop_time : option Q) (stop_signal : option Message)
    (events : list MidiCaptor.event) :
  capture_sequence h qpm start_time stop_time stop_signal events
  = capture_sequence_spec h start_time qpm stop_time stop_signal events.
Proof. reflexivity. Qed.

Lemma capture_sequence_requires_a_stop (h : t) (qpm start_time : Q)
    (events : list MidiCaptor.event) :
  capture_sequence h qpm start_time None None events = Raise MidiHubException.
Proof. reflexivity. Qed.

End Hub.

(** C3: at its failing input.  On a monophonic hub with passthrough and
    pitch 60 sounding, a note-off for pitch 60 is sent to the output, but
    the dispatch then raises [KeyError] and pitch 60 stays in the
    open-note set: the code removes the message, not its pitch. *)
Theorem handle_note_off_keeps_pitch_open :
  let out := MidiHub._handle_message Scenario.hub_sounding_60 (new_note_off 60 3) in
  MidiHub._open_notes Scenario.hub_sounding_60 = {[60%Z]}
  /\ snd out = Some KeyError
  /\ MidiHub._outport (fst out)
     = MidiHub._outport Scenario.hub_sounding_60 ++ [new_note_off 60 3]
  /\ MidiHub._open_notes (fst out) = {[60%Z]}.
Proof. repeat split; vm_compute; reflexivity. Qed.

(** C5: at its failing input.  With qpm 120, start time 0 and stop time 1,
    the clock reading 2 when the captor's thread takes its turn,
    [capture_sequence] returns a sequence whose qpm is 0, the start time,
    where [start_capture] with the same arguments, joined and read, gives
    qpm 120. *)
Theorem capture_sequence_swaps_qpm_and_start_time :
  MidiHub.capture_sequence Scenario.hub 120 0 (Some 1%Q) None [MidiCaptor.Tick 2]
  = Ok (Some (mkNoteSequence 0 [] 1 []))
  /\ MidiHub.capture_sequence_spec Scenario.hub 120 0 (Some 1%Q) None
       [MidiCaptor.Tick 2]
     = Ok (Some (mkNoteSequence 120 [] 1 [])).
Proof. split; reflexivity. Qed.



(** * Further properties *)

(** ** MidiPlayer: the queue *)
Section PlayerQueue.

Import MidiPlayer.

Lemma Qle_bool_total (x y : Q) : Qle_bool x y = false -> (y <= x)%Q.
Proof.
  intros H. destruct (Qlt_le_dec y x) as [Hlt|Hle].
  - apply Qlt_le_weak, Hlt.
  - apply Qle_bool_iff in Hle. congruence.
Qed.

Lemma insert_by_time_ascending (m : Message) (l : list Message) :
  Schedule.ascending l -> Schedule.ascending (insert_by_time m l).
Proof.
  induction l as [|x l IH]; simpl; intros H.
  - split; [|exact I]. intros y Hy. by apply elem_of_nil in Hy.
  - destruct H as [Hx Hl]. destruct (Qle_bool (time x) (time m)) eqn:Hc; simpl.
    + split; [|by apply IH].
      intros y Hy. apply insert_by_time_elem in Hy as [->|Hy].
      * by apply Qle_bool_iff.
      * by apply Hx.
    + apply Qle_bool_total in Hc. split; [|by split].
      intros y [->|Hy]%elem_of_cons; [exact Hc|].
      eapply Qle_trans; [exact Hc|by apply Hx].
Qed.

Lemma sorted_by_time_ascending (l : list Message) :
  Schedule.ascending (sorted_by_time l).
Proof.
  unfold sorted_by_time.
  assert (H : forall acc, Schedule.ascending acc ->
                Schedule.ascending (fold_left (fun a m => insert_by_time m a) l acc)).
  { induction l as [|m l IH]; intros acc Ha; simpl; [exact Ha|].
    apply IH, insert_by_time_ascending, Ha. }
  apply H. exact I.
Qed.

End PlayerQueue.

(** X1: after a successful [update_sequence] the queue is in ascending
    order of time, and nothing but the queue has changed. *)
Theorem update_sequence_queue_ascending :
  forall (self self' : MidiPlayer.t) (sequence : NoteSequence) (now : Q),
    MidiPlayer.update_sequence self sequence now = Ok self' ->
    Schedule.ascending (MidiPlayer._message_queue self')
    /\ self' = MidiPlayer.with_queue self (MidiPlayer._message_queue self').
Proof.
  intros self self' sequence now H. unfold MidiPlayer.update_sequence in H.
  destruct (negb (MidiPlayer._allow_updates self)); [discriminate|].
  destruct (MidiPlayer.scan_notes self now (notes sequence) [] ∅) as [r|e];
    simpl in H; [|discriminate].
  destruct (MidiPlayer.scan_queue (MidiPlayer._message_queue self) r.1 r.2)
    as [l|e]; simpl in H; [|discriminate].
  injection H as H. subst self'. simpl. split; [|reflexivity].
  apply sorted_by_time_ascending.
Qed.

Lemma update_sequence_queue_ascending_witness :
  Schedule.ascending
    (MidiPlayer._message_queue
       (MidiPlayer.mk [] ∅ [new_note_on 62 100 6; new_note_off 62 8] true (Bound 5%Q))).
Proof.
  apply (update_sequence_queue_ascending
           (MidiPlayer.mk [] ∅ [] true (Bound 5%Q)) _
           (mkNoteSequence 120 [120%Q] 10 [mkNote 62 100 6 8]) 5).
  vm_compute. reflexivity.
Defined.

(** ** MidiPlayer: what [update_sequence] raises *)
Section PlayerErrors.

Import MidiPlayer.

Lemma in_range_note_on (n : Note) (t0 : Q) :
  Schedule.in_range n = true ->
  Message_note_on (pitch n) (note_velocity n) t0
  = Ok (new_note_on (pitch n) (note_velocity n) t0).
Proof. unfold Schedule.in_range, Message_note_on. by intros ->. Qed.

Lemma in_range_note_off (n : Note) (t0 : Q) :
  Schedule.in_range n = true ->
  Message_note_off (pitch n) t0 = Ok (new_note_off (pitch n) t0).
Proof.
  unfold Schedule.in_range, Message_note_off.
  intros [-> _]%andb_true_iff. reflexivity.
Qed.

Lemma out_of_range_note_on (n : Note) (t0 : Q) :
  Schedule.in_range n = false ->
  Message_note_on (pitch n) (note_velocity n) t0 = Raise ValueError.
Proof. unfold Schedule.in_range, Message_note_on. by intros ->. Qed.



(** The first loop on notes that all end before the playhead: the
    note-ons of the notes still to start, or [ValueError] at the first of
    them that mido rejects; nothing is marked for closing. *)
Lemma scan_notes_all_ended (self : t) (ph : Q) (ns : list Note) :
  Forall (fun n => Qle_bool ph (end_time n) = false) ns ->
  forall (l : list Message) (c : gset Z),
    (Forall (fun n => Qle_bool ph (start_time n) = true ->
                      Schedule.in_range n = true) ns ->
     scan_notes self ph ns l c = Ok (l ++ Schedule.future_note_ons ph ns, c))
    /\ (Exists (fun n => Qle_bool ph (start_time n) = true
                         /\ Schedule.in_range n = false) ns ->
        scan_notes self ph ns l c = Raise ValueError).
Proof.
  induction 1 as [|n ns He Hall IH]; intros l c.
  - split.
    + intros _. simpl. unfold Schedule.future_note_ons. simpl.
      by rewrite app_nil_r.
    + intros H. inversion H.
  - split.
    + intros H. apply Forall_cons in H as [Hn H]. simpl.
      unfold Schedule.future_note_ons. simpl.
      destruct (Qle_bool ph (start_time n)); simpl.
      * rewrite (in_range_note_on _ _ (Hn eq_refl)). simpl. rewrite He.
        rewrite (proj1 (IH _ c) H). unfold Schedule.future_note_ons.
        by rewrite <- app_assoc.
      * rewrite He. by rewrite (proj1 (IH _ c) H).
    + intros H. simpl.
      destruct (Qle_bool ph (start_time n)) eqn:Hs; simpl.
      * destruct (Schedule.in_range n) eqn:Hr.
        -- rewrite (in_range_note_on _ _ Hr). simpl. rewrite He.
           apply Exists_cons in H as [[_ H]|H]; [congruence|]. by apply IH.
        -- by rewrite (out_of_range_note_on _ _ Hr).
      * rewrite He. apply Exists_cons in H as [[H _]|H]; [congruence|].
        by apply IH.
Qed.

(** With [_playhead] unassigned, notes that mido accepts and one of which
    ends at or after the playhead make the first loop raise. *)
Lemma scan_notes_missing_playhead (self : t) (ph : Q) (ns : list Note) :
  _playhead self = Missing ->
  Forall (fun n => Schedule.in_range n = true) ns ->
  Exists (fun n => Qle_bool ph (end_time n) = true) ns ->
  forall (l : list Message) (c : gset Z),
    scan_notes self ph ns l c = Raise AttributeError.
Proof.
  intros Hp Hr. induction Hr as [|n ns Hn Hr IH]; intros H l c.
  - inversion H.
  - simpl. rewrite (in_range_note_on _ _ Hn), (in_range_note_off _ _ Hn).
    destruct (Qle_bool ph (end_time n)) eqn:He.
    + rewrite Hp. by destruct (Qle_bool ph (start_time n)).
    + apply Exists_cons in H as [H|H]; [congruence|].
      destruct (Qle_bool ph (start_time n)); simpl; by apply IH.
Qed.

Lemma scan_queue_nothing_to_close (old l : list Message) :
  scan_queue old l ∅ = Ok l.
Proof. destruct old; simpl; [reflexivity|]. by rewrite bool_decide_eq_true_2. Qed.

End PlayerErrors.

(** X2: what the constructor accepts.  A sequence with other than one
    tempo is rejected with the hub exception before anything else.  With
    one tempo: when mido accepts the pitch and velocity of every note and
    some note ends at or after the construction time, the constructor
    raises [AttributeError]; when every note ends before that time, it
    raises [ValueError] if a note still to start has a pitch or velocity
    outside 0..127, and otherwise builds the player with nothing sent,
    nothing open, and a queue of the note-ons still to come, in ascending
    order of time. *)
Theorem init_accepts_only_ended_notes :
  forall (sequence : NoteSequence) (allow_updates : bool) (now : Q),
    (length (tempos sequence) <> 1%nat ->
     MidiPlayer.init sequence allow_updates now = Raise MidiHubException)
    /\ (length (tempos sequence) = 1%nat ->
        Forall (fun n => Schedule.in_range n = true) (notes sequence) ->
        Exists (fun n => Qle_bool now (end_time n) = true) (notes sequence) ->
        MidiPlayer.init sequence allow_updates now = Raise AttributeError)
    /\ (length (tempos sequence) = 1%nat ->
        Forall (fun n => Qle_bool now (end_time n) = false) (notes sequence) ->
        Exists (fun n => Qle_bool now (start_time n) = true
                         /\ Schedule.in_range n = false) (notes sequence) ->
        MidiPlayer.init sequence allow_updates now = Raise ValueError)
    /\ (length (tempos sequence) = 1%nat ->
        Forall (fun n => Qle_bool now (end_time n) = false) (notes sequence) ->
        Forall (fun n => Qle_bool now (start_time n) = true ->
                         Schedule.in_range n = true) (notes sequence) ->
        MidiPlayer.init sequence allow_updates now
        = Ok (MidiPlayer.mk [] ∅
                (sorted_by_time (Schedule.future_note_ons now (notes sequence)))
                allow_updates Missing)).
Proof.
  intros sequence allow_updates now. unfold MidiPlayer.init.
  split; [|split; [|split]].
  - intros H. apply Nat.eqb_neq in H. rewrite H. reflexivity.
  - intros H Hr He. rewrite H. simpl. unfold MidiPlayer.update_sequence. simpl.
    rewrite (scan_notes_missing_playhead
               (MidiPlayer.mk [] ∅ [] true Missing) now _ eq_refl Hr He).
    reflexivity.
  - intros H He Hx. rewrite H. simpl. unfold MidiPlayer.update_sequence. simpl.
    rewrite (proj2 (scan_notes_all_ended
                      (MidiPlayer.mk [] ∅ [] true Missing) now _ He [] ∅) Hx).
    reflexivity.
  - intros H He Hr. rewrite H. simpl. unfold MidiPlayer.update_sequence. simpl.
    rewrite (proj1 (scan_notes_all_ended
                      (MidiPlayer.mk [] ∅ [] true Missing) now _ He [] ∅) Hr).
    reflexivity.
Qed.

Lemma init_accepts_only_ended_notes_witness :
  MidiPlayer.init (mkNoteSequence 120 [] 0 []) true 1 = Raise MidiHubException
  /\ MidiPlayer.init Scenario.one_note true 0 = Raise AttributeError
  /\ MidiPlayer.init (mkNoteSequence 120 [120%Q] 0 [mkNote 128 100 2 0]) false 1
     = Raise ValueError
  /\ MidiPlayer.init Scenario.open_ended false 1
     = Ok (MidiPlayer.mk [] ∅
             (sorted_by_time
                (Schedule.future_note_ons 1 (notes Scenario.open_ended)))
             false Missing).
Proof.
  split; [|split; [|split]].
  - apply (proj1 (init_accepts_only_ended_notes (mkNoteSequence 120 [] 0 []) true 1)).
    simpl. lia.
  - apply (proj1 (proj2 (init_accepts_only_ended_notes Scenario.one_note true 0))).
    + reflexivity.
    + repeat constructor.
    + apply Exists_cons_hd. reflexivity.
  - apply (proj1 (proj2 (proj2 (init_accepts_only_ended_notes
             (mkNoteSequence 120 [120%Q] 0 [mkNote 128 100 2 0]) false 1)))).
    + reflexivity.
    + repeat constructor.
    + apply Exists_cons_hd. split; reflexivity.
  - apply (proj2 (proj2 (proj2 (init_accepts_only_ended_notes
             Scenario.open_ended false 1)))).
    + reflexivity.
    + repeat constructor.
    + repeat constructor.
Defined.



(** ** MidiPlayer: the playback thread *)
Section PlayerThread.

Import MidiPlayer.

Lemma run_steps_idle (clock : list Q) (out : list Message) (s : gset Z)
    (ph : attr Q) :
  run_steps clock (Running Loop (mk out s [] false ph))
  = Running Loop (mk out s [] false ph).
Proof. induction clock as [|t clock IH]; simpl; auto. Qed.

(** Due note-offs for distinct open pitches are sent one per loop test. *)
Lemma run_steps_drains (ph : attr Q) (l : list (Z * Q)) :
  forall (out : list Message) (s : gset Z) (clock : list Q),
    NoDup (map fst l) ->
    (forall n, n ∈ map fst l -> n ∈ s) ->
    Forall (fun t => Forall (fun v => (snd v <= t)%Q) l) clock ->
    length l <= length clock ->
    run_steps clock
      (Running Loop
         (mk out s (map (fun v => new_note_off (fst v) (snd v)) l) false ph))
    = Running Loop
        (mk (out ++ map (fun v => new_note_off (fst v) (snd v)) l)
            (s ∖ list_to_set (map fst l)) [] false ph).
Proof.
  induction l as [|[x t0] l IH]; intros out s clock Hnd Hin Hc Hlen.
  - simpl. rewrite run_steps_idle, app_nil_r, difference_empty_L. reflexivity.
  - destruct clock as [|t clock]; [simpl in Hlen; lia|].
    apply Forall_cons in Hc as [Ht Hc]. simpl in Hnd, Hin.
    apply NoDup_cons in Hnd as [Hx Hnd].
    apply Forall_cons in Ht as [Ht0 _]. simpl in Ht0.
    unfold run_steps. simpl fold_left at 1.
    change (fold_left (fun th now0 => step now0 th) clock ?th)
      with (run_steps clock th).
    assert (Hdue : Qlt_bool t t0 = false).
    { unfold Qlt_bool. apply negb_false_iff. by apply Qle_bool_iff. }
    assert (Hxs : x ∈ s) by (apply Hin; left).
    simpl. rewrite Hdue. rewrite (bool_decide_eq_true_2 _ Hxs).
    rewrite IH; auto.
    + rewrite <- app_assoc. simpl.
      rewrite difference_difference_l_L. reflexivity.
    + intros n Hn. apply elem_of_difference. split; [apply Hin; by right|].
      intros ->%elem_of_singleton. contradiction.
    + eapply Forall_impl; [exact Hc|]. simpl.
      intros t' Ht'. by apply Forall_cons in Ht' as [_ Ht'].
    + simpl in Hlen. lia.
Qed.



End PlayerThread.

(** X4: once [stop()] has replaced the queue, the loop closes every open
    note.  Whatever the order in which [stop()] visited the open notes and
    the clock readings it made, given one more loop test than there are
    open pitches, none before those readings, the thread has sent the
    queued note-offs, one for each pitch that was open and for no other,
    in the order of the visits, and the open-note set and the queue are
    empty. *)
Theorem stop_closes_every_open_note :
  forall (self : MidiPlayer.t) (timeout : option Q) (visits : list (Z * Q))
         (clock : list Q),
    MidiPlayer.iterates (MidiPlayer._open_notes self) (map fst visits) ->
    Forall (fun t => Forall (fun v => (snd v <= t)%Q) visits) clock ->
    length visits < length clock ->
    MidiPlayer.run_steps clock
      (MidiPlayer.Running (MidiPlayer.Waiting timeout)
         (MidiPlayer.stop_locked self visits))
    = MidiPlayer.Running MidiPlayer.Loop
        (MidiPlayer.mk
           (MidiPlayer._outport self
            ++ map (fun v => new_note_off (fst v) (snd v)) visits)
           ∅ [] false (MidiPlayer._playhead self))
    /\ NoDup (map fst visits)
    /\ (forall p, p ∈ MidiPlayer._open_notes self <-> p ∈ map fst visits).
Proof.
  intros self timeout visits clock [Hnd Hin] Hc Hlen.
  split; [|split; [exact Hnd|intros p; symmetry; apply Hin]].
  destruct clock as [|t clock]; [simpl in Hlen; lia|].
  apply Forall_cons in Hc as [_ Hc].
  unfold MidiPlayer.run_steps. simpl fold_left at 1.
  change (fold_left (fun th now0 => MidiPlayer.step now0 th) clock ?th)
    with (MidiPlayer.run_steps clock th).
  unfold MidiPlayer.stop_locked. simpl MidiPlayer.step.
  assert (Hempty : MidiPlayer._open_notes self
                     ∖ list_to_set (C:=gset Z) (map fst visits) = ∅).
  { apply set_eq. intros p. split.
    - intros [Hp Hn]%elem_of_difference. exfalso. apply Hn.
      apply elem_of_list_to_set. by apply Hin.
    - intros Hp. by apply not_elem_of_empty in Hp. }
  rewrite run_steps_drains; auto.
  - rewrite Hempty. reflexivity.
  - intros n. apply Hin.
  - simpl in Hlen. lia.
Qed.

Lemma stop_closes_every_open_note_witness :
  MidiPlayer.run_steps [5%Q; 5%Q; 6%Q; 7%Q]
    (MidiPlayer.Running (MidiPlayer.Waiting None)
       (MidiPlayer.stop_locked
          (MidiPlayer.mk [] (list_to_set [60%Z; 64%Z; 67%Z]) [] true Missing)
          [(64%Z, 5%Q); (67%Z, 5%Q); (60%Z, 5%Q)]))
  = MidiPlayer.Running MidiPlayer.Loop
      (MidiPlayer.mk
         ([] ++ map (fun v => new_note_off (fst v) (snd v))
                  [(64%Z, 5%Q); (67%Z, 5%Q); (60%Z, 5%Q)])
         ∅ [] false Missing).
Proof.
  apply (stop_closes_every_open_note
           (MidiPlayer.mk [] (list_to_set [60%Z; 64%Z; 67%Z]) [] true Missing)
           None [(64%Z, 5%Q); (67%Z, 5%Q); (60%Z, 5%Q)] [5%Q; 5%Q; 6%Q; 7%Q]).
  - split.
    + simpl. repeat constructor; rewrite ?elem_of_cons, ?elem_of_nil; intros H;
        repeat destruct H as [H|H]; try discriminate H; exact H.
    + intros n. cbn [MidiPlayer._open_notes map fst].
      rewrite elem_of_list_to_set, !elem_of_cons. tauto.
  - repeat constructor; simpl; vm_compute; discriminate.
  - simpl. lia.
Defined.


(** ** MidiCaptor: [_capture_message] *)
Section CaptureMessage.

Import MidiCaptor.

Lemma identity_alter_end_time (t0 : Q) (i : nat) (ns : list Note) :
  map Capture.identity (alter (set_end_time t0) i ns) = map Capture.identity ns.
Proof.
  revert i. induction ns as [|n ns IH]; intros [|i]; simpl; auto.
  f_equal. apply IH.
Qed.

Lemma length_alter_end_time (t0 : Q) (i : nat) (ns : list Note) :
  length (alter (set_end_time t0) i ns) = length ns.
Proof. apply length_alter. Qed.

Lemma lookup_alter_pitch (t0 : Q) (i j : nat) (ns : list Note) :
  pitch <$> alter (set_end_time t0) i ns !! j = pitch <$> ns !! j.
Proof.
  destruct (decide (i = j)) as [->|Hne].
  - rewrite list_lookup_alter_eq. by destruct (ns !! j).
  - by rewrite list_lookup_alter_ne.
Qed.

End CaptureMessage.

(** X7: a note-on with velocity 0 is captured as a note-off: for either
    texture it has the effect of a note-off of the same pitch and time,
    whatever that note-off's velocity and channel. *)
Theorem capture_note_on_velocity_0_is_note_off :
  forall (self : MidiCaptor.t) (p v c c' : Z) (t0 : Q),
    MidiCaptor._capture_message self (mkMessage note_on p 0 c t0)
    = MidiCaptor._capture_message self (mkMessage note_off p v c' t0).
Proof.
  intros self p v c c' t0. unfold MidiCaptor._capture_message.
  destruct (MidiCaptor.open self) as [o|o]; reflexivity.
Qed.

Section CaptureInvariant.

Import MidiCaptor.

Lemma prefix_of_app_r {A : Type} (l k : list A) : l `prefix_of` l ++ k.
Proof. by exists k. Qed.

Lemma prefix_of_refl {A : Type} (l : list A) : l `prefix_of` l.
Proof. exists []. by rewrite app_nil_r. Qed.

(** The notes after [_capture_message], in each of its branches. *)
Lemma capture_message_notes (self : t) (msg : Message) :
  let ns := notes (_captured_sequence self) in
  let self' := _capture_message self msg in
  (exists closed added,
      notes (_captured_sequence self') = closed ++ added
      /\ map Capture.identity closed = map Capture.identity ns
      /\ length added <= 1)
  /\ _receive_queue self' = _receive_queue self
  /\ _start_time self' = _start_time self
  /\ _stop_time self' = _stop_time self
  /\ thread self' = thread self
  /\ qpm (_captured_sequence self') = qpm (_captured_sequence self)
  /\ total_time (_captured_sequence self') = total_time (_captured_sequence self).
Proof.
  assert (Hsame : forall s : t,
             notes (_captured_sequence s) = notes (_captured_sequence self) ->
             exists closed added,
               notes (_captured_sequence s) = closed ++ added
               /\ map Capture.identity closed
                  = map Capture.identity (notes (_captured_sequence self))
               /\ length added <= 1).
  { intros s Hs. exists (notes (_captured_sequence self)), [].
    rewrite Hs, app_nil_r. simpl. auto. }
  unfold _capture_message.
  destruct (open self) as [o|o]; simpl.
  - unfold capture_monophonic. destruct (ends_note msg).
    + destruct o as [i|]; [|by repeat split; auto].
      destruct (pitch <$> notes (_captured_sequence self) !! i) as [p|];
        [|by repeat split; auto].
      destruct (negb (note msg =? p)%Z); [by repeat split; auto|].
      repeat split; auto. simpl.
      eexists _, []. rewrite app_nil_r. split; [reflexivity|].
      split; [apply identity_alter_end_time|simpl; lia].
    + destruct (msg_type_eqb (type msg) note_on); [|by repeat split; auto].
      destruct o as [i|].
      * destruct (bool_decide _); [by repeat split; auto|].
        repeat split; auto. simpl.
        eexists _, [_]. split; [reflexivity|].
        split; [apply identity_alter_end_time|simpl; lia].
      * repeat split; auto. simpl.
        eexists _, [_]. split; [reflexivity|]. split; [reflexivity|simpl; lia].
  - unfold capture_polyphonic. destruct (ends_note msg).
    + destruct (o !! note msg) as [i|]; [|by repeat split; auto].
      repeat split; auto. simpl.
      eexists _, []. rewrite app_nil_r. split; [reflexivity|].
      split; [apply identity_alter_end_time|simpl; lia].
    + destruct (msg_type_eqb (type msg) note_on); [|by repeat split; auto].
      destruct (o !! note msg) as [i|]; [by repeat split; auto|].
      repeat split; auto. simpl.
      eexists _, [_]. split; [reflexivity|]. split; [reflexivity|simpl; lia].
Qed.

Lemma capture_message_wf (self : t) (msg : Message) :
  Capture.wf self -> Capture.wf (_capture_message self msg).
Proof.
  unfold Capture.wf, _capture_message.
  destruct (open self) as [o|o] eqn:Ho; intros Hwf.
  - unfold capture_monophonic. destruct (ends_note msg).
    + destruct o as [i|]; [|by rewrite Ho].
      destruct (pitch <$> notes (_captured_sequence self) !! i) as [p|];
        [|by rewrite Ho].
      destruct (negb (note msg =? p)%Z); [by rewrite Ho|]. simpl. exact I.
    + destruct (msg_type_eqb (type msg) note_on); [|by rewrite Ho].
      destruct o as [i|].
      * destruct (bool_decide _); [by rewrite Ho|]. simpl.
        rewrite length_app, length_alter. simpl. lia.
      * simpl. rewrite length_app. simpl. lia.
  - unfold capture_polyphonic. destruct (ends_note msg).
    + destruct (o !! note msg) as [i|] eqn:Hi; [|by rewrite Ho]. simpl.
      intros p j Hj. apply lookup_delete_Some in Hj as [_ Hj].
      rewrite lookup_alter_pitch. by apply Hwf.
    + destruct (msg_type_eqb (type msg) note_on); [|by rewrite Ho].
      destruct (o !! note msg) as [i|] eqn:Hi; [by rewrite Ho|]. simpl.
      intros p j Hj. apply lookup_insert_Some in Hj as [[<- <-]|[Hne Hj]].
      * by rewrite list_lookup_middle.
      * specialize (Hwf p j Hj).
        destruct (notes (_captured_sequence self) !! j) as [n|] eqn:Hn;
          [|discriminate].
        by rewrite (lookup_app_l_Some _ _ _ _ Hn).
Qed.

End CaptureInvariant.

(** X8: [_capture_message] only appends a note and sets end times.  The
    pitch, velocity and start time of every note captured so far stay as
    they are and in place, at most one note is added, behind them, and
    the queue, the times, the thread, the tempo and the total time of
    the captor are untouched. *)
Theorem capture_message_only_appends_and_closes :
  forall (self : MidiCaptor.t) (msg : Message),
    let before := MidiCaptor._captured_sequence self in
    let self' := MidiCaptor._capture_message self msg in
    let after := MidiCaptor._captured_sequence self' in
    map Capture.identity (notes before) `prefix_of` map Capture.identity (notes after)
    /\ length (notes before) <= length (notes after) <= S (length (notes before))
    /\ qpm after = qpm before
    /\ total_time after = total_time before
    /\ MidiCaptor._receive_queue self' = MidiCaptor._receive_queue self
    /\ MidiCaptor._start_time self' = MidiCaptor._start_time self
    /\ MidiCaptor._stop_time self' = MidiCaptor._stop_time self
    /\ MidiCaptor.thread self' = MidiCaptor.thread self.
Proof.
  intros self msg.
  destruct (capture_message_notes self msg)
    as ((closed & added & Hn & Hid & Hlen) & Hq & Hs & Hst & Ht & Hqpm & Htt).
  simpl. rewrite Hn.
  assert (Hl : length closed = length (notes (MidiCaptor._captured_sequence self))).
  { rewrite <- (length_map Capture.identity closed), Hid. apply length_map. }
  repeat split; auto.
  - rewrite map_app, Hid. apply prefix_of_app_r.
  - rewrite length_app. lia.
  - rewrite length_app. lia.
Qed.

(** X9: the open notes of a captor always are captured notes.  A new
    captor is well formed and [_capture_message] keeps it so: the open
    note of a monophonic captor is the last note of the sequence, and
    each pitch a polyphonic captor holds open names a note of that
    pitch. *)
Theorem capture_keeps_open_notes_in_the_sequence :
  forall (o : MidiCaptor.open_state) (qpm start_time : Q)
         (stop_time : option Q) (stop_signal : option Message)
         (msgs : list Message),
    o = MidiCaptor.Monophonic None \/ o = MidiCaptor.Polyphonic ∅ ->
    Capture.wf
      (Capture.capture_all
         (MidiCaptor.start (MidiCaptor.init o qpm start_time stop_time stop_signal))
         msgs).
Proof.
  intros o q st sp sg msgs Ho.
  assert (H0 : Capture.wf (MidiCaptor.start (MidiCaptor.init o q st sp sg))).
  { destruct Ho as [-> | ->]; unfold Capture.wf; simpl; [exact I|].
    intros p i Hp. by rewrite lookup_empty in Hp. }
  revert H0. generalize (MidiCaptor.start (MidiCaptor.init o q st sp sg)).
  unfold Capture.capture_all.
  induction msgs as [|m msgs IH]; intros c Hc; simpl; [exact Hc|].
  apply IH, capture_message_wf, Hc.
Qed.

Lemma capture_keeps_open_notes_in_the_sequence_witness :
  Capture.wf
    (Capture.capture_all
       (MidiCaptor.start (MidiCaptor.init (MidiCaptor.Polyphonic ∅) 120 0 None None))
       [new_note_on 60 100 1; new_note_on 64 100 2; new_note_off 60 3]).
Proof.
  apply (capture_keeps_open_notes_in_the_sequence
           (MidiCaptor.Polyphonic ∅) 120 0 None None).
  right. reflexivity.
Defined.

(** X10: the two textures on one stream.  For pitches [p] and [q] that
    differ, a note-on for [p], a note-on for [q], a note-off for [p] and a
    note-off for [q], in this order, give a monophonic captor the notes
    [p] from [t0] to [t1] and [q] from [t1] to [t3] (the second note-on
    ends the first note, the note-off for [p] is dropped), and a
    polyphonic captor the overlapping notes [p] from [t0] to [t2] and [q]
    from [t1] to [t3]. *)
Theorem capture_monophonic_and_polyphonic_differ :
  forall (qpm start_time : Q) (stop_time : option Q) (stop_signal : option Message)
         (p q v1 v2 : Z) (t0 t1 t2 t3 : Q),
    p <> q -> v1 <> 0%Z -> v2 <> 0%Z ->
    let stream := [new_note_on p v1 t0; new_note_on q v2 t1;
                   new_note_off p t2; new_note_off q t3] in
    notes (MidiCaptor._captured_sequence
             (Capture.capture_all
                (MidiCaptor.start
                   (MidiCaptor.init (MidiCaptor.Monophonic None) qpm start_time
                      stop_time stop_signal)) stream))
    = [mkNote p v1 t0 t1; mkNote q v2 t1 t3]
    /\ notes (MidiCaptor._captured_sequence
                (Capture.capture_all
                   (MidiCaptor.start
                      (MidiCaptor.init (MidiCaptor.Polyphonic ∅) qpm start_time
                         stop_time stop_signal)) stream))
       = [mkNote p v1 t0 t2; mkNote q v2 t1 t3].
Proof.
  intros qpm st sp sg p q v1 v2 t0 t1 t2 t3 Hpq Hv1 Hv2 stream.
  assert (E1 : (v1 =? 0)%Z = false) by (by apply Z.eqb_neq).
  assert (E2 : (v2 =? 0)%Z = false) by (by apply Z.eqb_neq).
  assert (E3 : (p =? q)%Z = false) by (by apply Z.eqb_neq).
  assert (E4 : (q =? p)%Z = false) by (apply Z.eqb_neq; congruence).
  assert (E5 : bool_decide (Some p = Some q) = false).
  { apply bool_decide_eq_false. congruence. }
  split.
  - unfold stream, Capture.capture_all, MidiCaptor._capture_message,
      MidiCaptor.capture_monophonic, MidiCaptor.ends_note. simpl.
    rewrite E1. simpl. rewrite E2. simpl. rewrite E5. simpl.
    rewrite E3. simpl. rewrite Z.eqb_refl. simpl. reflexivity.
  - unfold stream, Capture.capture_all, MidiCaptor._capture_message,
      MidiCaptor.capture_polyphonic, MidiCaptor.ends_note. simpl.
    rewrite E1. simpl. rewrite lookup_empty. simpl. rewrite E2. simpl.
    rewrite lookup_insert_ne by done. rewrite lookup_empty. simpl.
    rewrite lookup_insert_ne by done. rewrite lookup_insert_eq. simpl.
    rewrite lookup_delete_ne by done. rewrite lookup_insert_eq. simpl.
    reflexivity.
Qed.

Lemma capture_monophonic_and_polyphonic_differ_witness :
  notes (MidiCaptor._captured_sequence
           (Capture.capture_all
              (MidiCaptor.start
                 (MidiCaptor.init (MidiCaptor.Monophonic None) 120 0 None None))
              [new_note_on 60 100 0; new_note_on 64 100 1;
               new_note_off 60 2; new_note_off 64 3]))
  = [mkNote 60 100 0 1; mkNote 64 100 1 3]
  /\ notes (MidiCaptor._captured_sequence
              (Capture.capture_all
                 (MidiCaptor.start
                    (MidiCaptor.init (MidiCaptor.Polyphonic ∅) 120 0 None None))
                 [new_note_on 60 100 0; new_note_on 64 100 1;
                  new_note_off 60 2; new_note_off 64 3]))
     = [mkNote 60 100 0 2; mkNote 64 100 1 3].
Proof.
  apply (capture_monophonic_and_polyphonic_differ 120 0 None None
           60 64 100 100 0 1 2 3); lia.
Defined.

(** ** MidiCaptor: [captured_sequence], [stop] and the thread *)
Section CaptorThread.

Import MidiCaptor.

Lemma close_notes_clips (e : Q) (ns : list Note) :
  (forall n, n ∈ close_notes e ns ->
     (end_time n <= e)%Q /\ (~ e == 0 -> ~ end_time n == 0))
  /\ map Capture.identity (close_notes e ns) `prefix_of` map Capture.identity ns.
Proof.
  induction ns as [|n ns [IH1 IH2]]; simpl.
  - split; [intros n Hn; by apply elem_of_nil in Hn|apply prefix_of_refl].
  - destruct (Qlt_bool (end_time n) (start_time n)).
    + split; [intros n' Hn; by apply elem_of_nil in Hn|].
      exists (map Capture.identity (n :: ns)). reflexivity.
    + split.
      * intros n' [->|Hn]%elem_of_cons; [|by apply IH1].
        destruct (negb (truthy (end_time n))) eqn:Hz; simpl.
        -- split; [apply Qle_refl|auto].
        -- destruct (Qlt_bool e (end_time n)) eqn:Hlt; simpl.
           ++ split; [apply Qle_refl|auto].
           ++ split.
              ** unfold Qlt_bool in Hlt. apply negb_false_iff in Hlt.
                 by apply Qle_bool_iff.
              ** intros _. unfold truthy in Hz. rewrite negb_involutive in Hz.
                 by apply Qeq_bool_neq.
      * destruct IH2 as [k Hk].
        exists k. simpl. rewrite Hk.
        by destruct (negb (truthy (end_time n)) || Qlt_bool e (end_time n)).
Qed.

End CaptorThread.

(** X11: what [captured_sequence] returns for a running captor.  With an
    end time given it raises nothing; the result has that end time as
    total time and the captor's tempo; every note it returns ends at or
    before the end time, and is closed unless the end time is 0; and the
    notes returned are a first part of the captured ones, their pitch,
    velocity and start time unchanged. *)
Theorem captured_sequence_clips_to_end_time :
  forall (self : MidiCaptor.t) (e : Q),
    MidiCaptor.is_alive self = true ->
    exists s,
      MidiCaptor.captured_sequence self (Some e) = Ok s
      /\ total_time s = e
      /\ qpm s = qpm (MidiCaptor._captured_sequence self)
      /\ (forall n, n ∈ notes s ->
            (end_time n <= e)%Q /\ (~ e == 0 -> ~ end_time n == 0))
      /\ map Capture.identity (notes s)
         `prefix_of` map Capture.identity (notes (MidiCaptor._captured_sequence self)).
Proof.
  intros self e H. unfold MidiCaptor.captured_sequence. rewrite H.
  eexists. split; [reflexivity|]. simpl.
  destruct (close_notes_clips e (notes (MidiCaptor._captured_sequence self))).
  auto.
Qed.

Lemma captured_sequence_clips_to_end_time_witness :
  exists s,
    MidiCaptor.captured_sequence Scenario.captor_note_5_6 (Some 5.5%Q) = Ok s
    /\ total_time s = 5.5%Q
    /\ qpm s = qpm (MidiCaptor._captured_sequence Scenario.captor_note_5_6)
    /\ (forall n, n ∈ notes s ->
          (end_time n <= 5.5)%Q /\ (~ 5.5 == 0 -> ~ end_time n == 0))
    /\ map Capture.identity (notes s)
       `prefix_of` map Capture.identity
                     (notes (MidiCaptor._captured_sequence Scenario.captor_note_5_6)).
Proof.
  apply (captured_sequence_clips_to_end_time Scenario.captor_note_5_6 5.5%Q).
  reflexivity.
Defined.



Section CaptorNeverCaptures.

Import MidiCaptor.

Lemma thread_only_waits_finish (self : t) (e : Q) :
  thread self = Alive ->
  Capture.thread_only_waits self -> Capture.thread_only_waits (finish self e).
Proof.
  intros Ha (Hm & Hn & _). unfold finish, captured_sequence, is_alive.
  rewrite Ha. unfold Capture.thread_only_waits. simpl. rewrite Hn. simpl. auto.
Qed.

Lemma thread_only_waits_react (self : t) (ev : event) :
  Capture.thread_only_waits self -> Capture.thread_only_waits (react self ev).
Proof.
  intros H. destruct ev as [msg|now]; simpl.
  - destruct (is_alive self); [|exact H].
    unfold receive. destruct (negb (truthy (time msg))); exact H.
  - unfold step. unfold is_alive.
    destruct (thread self) eqn:Ha; simpl; try exact H.
    assert (Hd : Capture.thread_only_waits (dequeue self)).
    { unfold dequeue. destruct (_receive_queue self) as [|[msg|] q]; try exact H.
      destruct (Qle_bool (time msg) (_start_time self)); [exact H|].
      destruct H as (Hm & Hn & _). rewrite Hm. simpl.
      unfold Capture.thread_only_waits. simpl. auto. }
    destruct (_stop_time self) as [st|]; [|exact Hd].
    destruct (Qle_bool (st - now) 0); [|exact Hd].
    by apply thread_only_waits_finish.
Qed.

End CaptorNeverCaptures.

(** X13: a captor driven by its thread never records a note.  Whatever is
    delivered to a captor started as [start_capture] starts it, and
    whenever its thread takes its turns, the captured sequence has no
    note, and the thread is running, has finished, or has died of
    [AttributeError]. *)
Theorem capture_thread_records_nothing :
  forall (o : MidiCaptor.open_state) (qpm start_time : Q)
         (stop_time : option Q) (stop_signal : option Message)
         (events : list MidiCaptor.event),
    let captor :=
      MidiCaptor.simulate events
        (MidiCaptor.start
           (MidiCaptor.init o qpm start_time stop_time stop_signal)) in
    notes (MidiCaptor._captured_sequence captor) = []
    /\ (MidiCaptor.thread captor = MidiCaptor.Alive
        \/ MidiCaptor.thread captor = MidiCaptor.Finished
        \/ MidiCaptor.thread captor = MidiCaptor.Died AttributeError).
Proof.
  intros o q st sp sg events.
  assert (H : Capture.thread_only_waits
                (MidiCaptor.simulate events
                   (MidiCaptor.start (MidiCaptor.init o q st sp sg)))).
  { assert (H0 : Capture.thread_only_waits
                   (MidiCaptor.start (MidiCaptor.init o q st sp sg))).
    { unfold Capture.thread_only_waits. simpl. auto. }
    revert H0. generalize (MidiCaptor.start (MidiCaptor.init o q st sp sg)).
    unfold MidiCaptor.simulate.
    induction events as [|ev events IH]; intros c Hc; simpl; [exact Hc|].
    apply IH, thread_only_waits_react, Hc. }
  destruct H as (_ & Hn & Ht). simpl. auto.
Qed.

(** ** MidiHub: dispatch *)
Section HubDispatch.

Import MidiHub.

Lemma pass_through_threads (h : t) (msg : Message) :
  _capture_threads (fst (pass_through h msg)) = _capture_threads h.
Proof.
  unfold pass_through.
  destruct (negb (_passthrough h)); [reflexivity|].
  destruct (_texture_type h =? POLYPHONIC)%Z.
  { destruct (type msg); reflexivity. }
  destruct (_texture_type h =? MONOPHONIC)%Z; [|reflexivity].
  destruct (negb (size (_open_notes h) <=? 1)%nat); [reflexivity|].
  destruct (type msg); try reflexivity.
  - destruct (bool_decide (_open_notes h = ∅)); [reflexivity|].
    destruct (set_pop (_open_notes h)) as [[p s]|e]; reflexivity.
  - destruct (bool_decide (note msg ∈ _open_notes h)); reflexivity.
Qed.

Lemma deliver_unstamped (msg : Message) (c : MidiCaptor.t)
    (rest : list MidiCaptor.t) :
  time msg == 0 ->
  deliver msg (c :: rest) = (c :: rest, Some MidiHubException).
Proof.
  intros H. apply Qeq_bool_iff in H. simpl.
  unfold MidiCaptor.receive, truthy. rewrite H. reflexivity.
Qed.

(** Polyphonic passthrough of a stamped message. *)
Lemma handle_message_polyphonic (h : t) (msg : Message) :
  _texture_type h = POLYPHONIC ->
  _passthrough h = true ->
  ~ time msg == 0 ->
  _handle_message h msg
  = (mk POLYPHONIC true (Output.play (_open_notes h) msg)
        (map (fun c => MidiCaptor.put_nowait c (Some msg))
           (List.filter MidiCaptor.is_alive (_capture_threads h)))
        (_outport h ++ [msg]), None).
Proof.
  intros Ht Hp Hn. unfold _handle_message.
  rewrite (deliver_stamped _ _ Hn). unfold pass_through, Output.play.
  cbn [_texture_type _passthrough _open_notes _capture_threads _outport
       with_capture_threads negb].
  rewrite Hp, Ht. cbn [negb].
  change (POLYPHONIC =? POLYPHONIC)%Z with true. cbn iota.
  destruct (type msg); unfold send, with_open_notes; simpl;
    rewrite ?Ht, ?Hp; reflexivity.
Qed.

(** The captors after the dispatch of a stamped message, field by
    field. *)
Lemma dispatch_threads_stamped (h : t) (msg : Message) :
  ~ time msg == 0 ->
  _capture_threads (fst (_handle_message h msg))
  = map (fun c =>
           MidiCaptor.mk
             (MidiCaptor._receive_queue c ++ [Some msg])
             (MidiCaptor._captured_sequence c) (MidiCaptor._start_time c)
             (MidiCaptor._stop_time c) (MidiCaptor._stop_signal c)
             (MidiCaptor._stop_message c) (MidiCaptor.open c)
             (MidiCaptor.thread c))
        (List.filter MidiCaptor.is_alive (_capture_threads h)).
Proof.
  intros Hn. unfold _handle_message.
  rewrite (deliver_stamped _ _ Hn). rewrite pass_through_threads. reflexivity.
Qed.

End HubDispatch.

(** X14: a stamped message reaches every live captor, whatever the
    texture and the passthrough.  After the dispatch the hub's captors
    are those that were alive, in the same order, each with the message
    added at the back of its queue and every other field as it was;
    finished captors are gone. *)
Theorem handle_message_delivers_to_live_captors :
  forall (h : MidiHub.t) (msg : Message),
    ~ time msg == 0 ->
    MidiHub._capture_threads (fst (MidiHub._handle_message h msg))
    = map (fun c =>
             MidiCaptor.mk
               (MidiCaptor._receive_queue c ++ [Some msg])
               (MidiCaptor._captured_sequence c) (MidiCaptor._start_time c)
               (MidiCaptor._stop_time c) (MidiCaptor._stop_signal c)
               (MidiCaptor._stop_message c) (MidiCaptor.open c)
               (MidiCaptor.thread c))
          (List.filter MidiCaptor.is_alive (MidiHub._capture_threads h)).
Proof. intros h msg Hn. by apply dispatch_threads_stamped. Qed.

Lemma handle_message_delivers_to_live_captors_witness :
  MidiHub._capture_threads
    (fst (MidiHub._handle_message
            (MidiHub.with_capture_threads Scenario.hub
               [Scenario.captor_finished; Scenario.captor_started])
            (new_note_on 60 100 1)))
  = [MidiCaptor.mk [Some (new_note_on 60 100 1)] (mkNoteSequence 120 [] 0 [])
       0 None None Missing (MidiCaptor.Monophonic None) MidiCaptor.Alive].
Proof.
  apply (handle_message_delivers_to_live_captors
           (MidiHub.with_capture_threads Scenario.hub
              [Scenario.captor_finished; Scenario.captor_started])
           (new_note_on 60 100 1)).
  intros H. vm_compute in H. discriminate H.
Defined.

(** X15: a message without a time and a live captor.  The dispatch
    raises the hub exception at the first live captor: no captor receives
    the message, nothing is sent to the output and the open-note set is
    unchanged; only the finished captors are dropped. *)
Theorem handle_message_unstamped_raises :
  forall (h : MidiHub.t) (msg : Message),
    time msg == 0 ->
    List.filter MidiCaptor.is_alive (MidiHub._capture_threads h) <> [] ->
    MidiHub._handle_message h msg
    = (MidiHub.with_capture_threads h
         (List.filter MidiCaptor.is_alive (MidiHub._capture_threads h)),
       Some MidiHubException).
Proof.
  intros h msg Ht Hl. unfold MidiHub._handle_message.
  destruct (List.filter MidiCaptor.is_alive (MidiHub._capture_threads h))
    as [|c rest]; [done|].
  rewrite (deliver_unstamped _ _ _ Ht). reflexivity.
Qed.

Lemma handle_message_unstamped_raises_witness :
  MidiHub._handle_message
    (MidiHub.with_capture_threads Scenario.hub [Scenario.captor_started])
    (new_note_on 60 100 0)
  = (MidiHub.with_capture_threads
       (MidiHub.with_capture_threads Scenario.hub [Scenario.captor_started])
       (List.filter MidiCaptor.is_alive
          (MidiHub._capture_threads
             (MidiHub.with_capture_threads Scenario.hub [Scenario.captor_started]))),
     Some MidiHubException).
Proof.
  apply (handle_message_unstamped_raises
           (MidiHub.with_capture_threads Scenario.hub [Scenario.captor_started])
           (new_note_on 60 100 0)).
  - reflexivity.
  - vm_compute. discriminate.
Defined.

(** ** MidiHub: what sounds on the output *)
Section HubOutput.

Import MidiHub.



(** With passthrough off a dispatch sends nothing and opens nothing. *)
Lemma handle_message_passthrough_off (h : t) (msg : Message) :
  _passthrough h = false ->
  let h' := fst (_handle_message h msg) in
  _passthrough h' = false /\ _outport h' = _outport h
  /\ _open_notes h' = _open_notes h.
Proof.
  intros Hp. unfold _handle_message.
  destruct (deliver msg (List.filter MidiCaptor.is_alive (_capture_threads h)))
    as [ts [e|]]; simpl; [auto|].
  unfold pass_through. simpl. rewrite Hp. simpl. auto.
Qed.







End HubOutput.

(** X16: with passthrough off the hub is silent.  Whatever arrives,
    nothing is sent to the output, the open-note set does not change and
    passthrough stays off. *)
Theorem feed_passthrough_off_sends_nothing :
  forall (arrivals : list (Message * Q)) (h : MidiHub.t),
    MidiHub._passthrough h = false ->
    MidiHub._outport (MidiHub.feed h arrivals) = MidiHub._outport h
    /\ MidiHub._open_notes (MidiHub.feed h arrivals) = MidiHub._open_notes h
    /\ MidiHub._passthrough (MidiHub.feed h arrivals) = false.
Proof.
  unfold MidiHub.feed.
  induction arrivals as [|[m now] arrivals IH]; intros h Hp; simpl; [auto|].
  assert (H : MidiHub._passthrough
                (fst (MidiHub._timestamp_and_handle_message h m now)) = false
              /\ MidiHub._outport
                   (fst (MidiHub._timestamp_and_handle_message h m now))
                 = MidiHub._outport h
              /\ MidiHub._open_notes
                   (fst (MidiHub._timestamp_and_handle_message h m now))
                 = MidiHub._open_notes h).
  { unfold MidiHub._timestamp_and_handle_message.
    destruct (type m); try (by apply handle_message_passthrough_off); auto. }
  destruct H as (H1 & H2 & H3).
  destruct (IH _ H1) as (I1 & I2 & I3).
  rewrite I1, I2, H2, H3. auto.
Qed.

Lemma feed_passthrough_off_sends_nothing_witness :
  MidiHub._outport
    (MidiHub.feed (MidiHub.init MidiHub.POLYPHONIC false)
       [(new_note_on 60 100 0, 1%Q); (new_note_off 60 0, 2%Q)])
  = MidiHub._outport (MidiHub.init MidiHub.POLYPHONIC false)
  /\ MidiHub._open_notes
       (MidiHub.feed (MidiHub.init MidiHub.POLYPHONIC false)
          [(new_note_on 60 100 0, 1%Q); (new_note_off 60 0, 2%Q)])
     = MidiHub._open_notes (MidiHub.init MidiHub.POLYPHONIC false)
  /\ MidiHub._passthrough
       (MidiHub.feed (MidiHub.init MidiHub.POLYPHONIC false)
          [(new_note_on 60 100 0, 1%Q); (new_note_off 60 0, 2%Q)])
     = false.
Proof.
  apply (feed_passthrough_off_sends_nothing
           [(new_note_on 60 100 0, 1%Q); (new_note_off 60 0, 2%Q)]
           (MidiHub.init MidiHub.POLYPHONIC false)).
  reflexivity.
Defined.

(** X17: polyphonic passthrough forwards everything but program changes.
    For arrivals at times other than 0, the output receives every
    arriving message that is not a program change, stamped with its
    arrival time, unchanged otherwise and in the order of arrival. *)
Theorem feed_polyphonic_forwards_in_order :
  forall (arrivals : list (Message * Q)) (h : MidiHub.t),
    MidiHub._texture_type h = MidiHub.POLYPHONIC ->
    MidiHub._passthrough h = true ->
    Forall (fun a => ~ snd a == 0) arrivals ->
    MidiHub._outport (MidiHub.feed h arrivals)
    = MidiHub._outport h ++ Output.stamped arrivals.
Proof.
  unfold MidiHub.feed, Output.stamped.
  induction arrivals as [|[m now] arrivals IH]; intros h Ht Hp Hs; simpl.
  - by rewrite app_nil_r.
  - apply Forall_cons in Hs as [Hnow Hs]. simpl in Hnow.
    unfold MidiHub._timestamp_and_handle_message.
    assert (Hfwd :
               MidiHub._outport
                 (fold_left
                    (fun h0 a =>
                       fst (MidiHub._timestamp_and_handle_message h0 (fst a) (snd a)))
                    arrivals
                    (fst (MidiHub._handle_message h (set_time m now))))
               = MidiHub._outport h
                 ++ set_time m now
                    :: map (fun a => set_time (fst a) (snd a))
                         (List.filter
                            (fun a => negb (msg_type_eqb (type (fst a)) program_change))
                            arrivals)).
    { rewrite (handle_message_polyphonic h (set_time m now) Ht Hp Hnow). simpl.
      rewrite IH; auto. simpl. by rewrite <- app_assoc. }
    destruct (type m) eqn:Hm; simpl; try exact Hfwd.
    by apply IH.
Qed.

Lemma feed_polyphonic_forwards_in_order_witness :
  MidiHub._outport
    (MidiHub.feed (MidiHub.init MidiHub.POLYPHONIC true)
       [(new_note_on 60 100 0, 1%Q);
        (mkMessage program_change 0 0 0 0, 2%Q);
        (new_note_off 60 0, 3%Q)])
  = MidiHub._outport (MidiHub.init MidiHub.POLYPHONIC true)
    ++ Output.stamped
         [(new_note_on 60 100 0, 1%Q);
          (mkMessage program_change 0 0 0 0, 2%Q);
          (new_note_off 60 0, 3%Q)].
Proof.
  apply (feed_polyphonic_forwards_in_order
           [(new_note_on 60 100 0, 1%Q);
            (mkMessage program_change 0 0 0 0, 2%Q);
            (new_note_off 60 0, 3%Q)]
           (MidiHub.init MidiHub.POLYPHONIC true)).
  - reflexivity.
  - reflexivity.
  - repeat constructor; intros H; vm_compute in H; discriminate H.
Defined.



(** ** MidiHub: the passthrough setter, captures and the metronome *)
Section HubSetter.

Lemma NoDup_note_offs (l : list Z) :
  NoDup l -> NoDup (map (fun p => new_note_off p 0) l).
Proof.
  induction 1 as [|x l Hx Hl IH]; simpl; constructor; [|exact IH].
  intros Hin. apply Hx. apply list_elem_of_In in Hin.
  apply in_map_iff in Hin as (y & Heq & Hy).
  injection Heq as ->. by apply list_elem_of_In.
Qed.

Lemma elem_of_note_offs (m : Message) (l : list Z) :
  m ∈ map (fun p => new_note_off p 0) l
  <-> exists p, p ∈ l /\ m = new_note_off p 0.
Proof.
  rewrite list_elem_of_In, in_map_iff. split.
  - intros (p & <- & Hp). exists p. split; [by apply list_elem_of_In|reflexivity].
  - intros (p & Hp & ->). exists p. split; [reflexivity|by apply list_elem_of_In].
Qed.

End HubSetter.

(** X20: the passthrough setter.  Setting the value passthrough has
    changes nothing.  Setting the other value empties the open-note set
    and sends, after what was sent before, one note-off for each pitch
    that was open and nothing else; texture and captors are kept. *)
Theorem set_passthrough_closes_open_notes :
  forall (h : MidiHub.t) (value : bool),
    (MidiHub._passthrough h = value -> MidiHub.set_passthrough h value = h)
    /\ (MidiHub._passthrough h <> value ->
        let h' := MidiHub.set_passthrough h value in
        MidiHub._passthrough h' = value
        /\ MidiHub._open_notes h' = ∅
        /\ MidiHub._texture_type h' = MidiHub._texture_type h
        /\ MidiHub._capture_threads h' = MidiHub._capture_threads h
        /\ exists sent,
             MidiHub._outport h' = MidiHub._outport h ++ sent
             /\ NoDup sent
             /\ forall m, m ∈ sent
                  <-> exists p, p ∈ MidiHub._open_notes h /\ m = new_note_off p 0).
Proof.
  intros h value. unfold MidiHub.set_passthrough. split.
  - intros H. apply Bool.eqb_true_iff in H. rewrite H. reflexivity.
  - intros H. apply Bool.eqb_false_iff in H. rewrite H. simpl.
    repeat split; auto.
    eexists. split; [reflexivity|]. split.
    + apply NoDup_note_offs, NoDup_elements.
    + intros m. rewrite elem_of_note_offs.
      split; intros (p & Hp & Hm); exists p; split; auto;
        by apply elem_of_elements.
Qed.

Lemma set_passthrough_closes_open_notes_witness :
  MidiHub.set_passthrough Scenario.hub_sounding_60 true = Scenario.hub_sounding_60
  /\ MidiHub._open_notes (MidiHub.set_passthrough Scenario.hub_sounding_60 false) = ∅.
Proof.
  split.
  - apply (proj1 (set_passthrough_closes_open_notes Scenario.hub_sounding_60 true)).
    reflexivity.
  - apply (proj2 (set_passthrough_closes_open_notes Scenario.hub_sounding_60 false)).
    vm_compute. discriminate.
Defined.



(** X22: the hub's metronome.  On a hub as constructed, where
    [_metronome] is not assigned, [start_metronome] and [stop_metronome]
    raise [AttributeError].  Where it is [None], [start_metronome]
    installs a metronome with the given start time and tempo, whose
    thread is not started; and from then on no call of [start_metronome]
    or [stop_metronome] replaces, removes or starts it: each raises at
    [join()]. *)
Theorem metronome_is_never_started :
  (forall start_time qpm : Q,
      MidiHubMetronome.start_metronome Missing start_time qpm
      = (Missing, Some AttributeError))
  /\ MidiHubMetronome.stop_metronome Missing = (Missing, Some AttributeError)
  /\ (forall start_time qpm : Q,
      MidiHubMetronome.start_metronome (Bound None) start_time qpm
      = (Bound (Some (Metronome.init start_time qpm)), None))
  /\ (forall (start_time qpm : Q) (calls : list MidiHubMetronome.call),
      exists metronome,
        fold_left MidiHubMetronome.perform calls
          (Bound (Some (Metronome.init start_time qpm)))
        = Bound (Some metronome)
        /\ Metronome.thread metronome = MidiCaptor.NotStarted
        /\ Metronome._start_time metronome = start_time
        /\ Metronome._qpm metronome = qpm).
Proof.
  split; [reflexivity|]. split; [reflexivity|]. split; [reflexivity|].
  intros start_time qpm calls.
  assert (H : forall m,
             Metronome.thread m = MidiCaptor.NotStarted ->
             Metronome._start_time m = start_time ->
             Metronome._qpm m = qpm ->
             exists metronome,
               fold_left MidiHubMetronome.perform calls (Bound (Some m))
               = Bound (Some metronome)
               /\ Metronome.thread metronome = MidiCaptor.NotStarted
               /\ Metronome._start_time metronome = start_time
               /\ Metronome._qpm metronome = qpm).
  { induction calls as [|c calls IH]; intros m Ht Hs Hq; simpl.
    - exists m. auto.
    - destruct c as [st q|]; simpl;
        unfold MidiHubMetronome.start_metronome, MidiHubMetronome.stop_metronome,
          Metronome.stop; simpl; rewrite Ht; simpl; apply IH; auto. }
  apply H; reflexivity.
Qed.
